(** * clean.py: the wikitext cleaning pipeline

    A shallow embedding of [unescape], [dropNested] and [clean_text] of
    clean.py, together with the part of the Python runtime they rest on:
    strings as sequences of code points, the Unicode predicates behind
    [\w], [\s], [\d] and [str.strip], [int], [chr], and the backtracking
    matcher of the [re] module restricted to the constructs that occur in
    the patterns of clean.py. *)

From Stdlib Require Import List NArith ZArith Bool Arith Lia String Ascii.
Import ListNotations.

(** ** Python strings and the runtime functions used by clean.py *)

Module Py.

(** A Python [str] is a sequence of Unicode code points. *)
Definition char := N.
Definition str := list char.

(** String literals of this file are written in UTF-8 and decoded to code
    points by [u]. *)
Fixpoint utf8_dec (s : string) (pend acc : N) : str :=
  match s with
  | EmptyString => []
  | String a s' =>
      let b := N_of_ascii a in
      if (b <? 128)%N then b :: utf8_dec s' 0%N 0%N
      else if (b <? 192)%N then
        let acc' := (acc * 64 + (b - 128))%N in
        if (pend <=? 1)%N then acc' :: utf8_dec s' 0%N 0%N
        else utf8_dec s' (pend - 1)%N acc'
      else if (b <? 224)%N then utf8_dec s' 1%N (b - 192)%N
      else if (b <? 240)%N then utf8_dec s' 2%N (b - 224)%N
      else utf8_dec s' 3%N (b - 240)%N
  end.

Definition u (s : string) : str := utf8_dec s 0%N 0%N.

Fixpoint str_eqb (a b : str) : bool :=
  match a, b with
  | [], [] => true
  | x :: a', y :: b' => (x =? y)%N && str_eqb a' b'
  | _, _ => false
  end.

(** *** Unicode character database

    The tables are those of Unicode 14.0.0, the version shipped with
    CPython 3.11; each is a sorted list of inclusive code point ranges. *)

Fixpoint in_ranges (t : list (N * N)) (c : char) : bool :=
  match t with
  | [] => false
  | (lo, hi) :: t' =>
      if (c <? lo)%N then false
      else if (c <=? hi)%N then true
      else in_ranges t' c
  end.

(** [str.isalnum]: general categories L* and N*. *)
Definition alnum_table : list (N * N) :=
  [
   (48, 57); (65, 90); (97, 122); (170, 170); (178, 179); (181, 181);
   (185, 186); (188, 190); (192, 214); (216, 246); (248, 705); (710, 721);
   (736, 740); (748, 748); (750, 750); (880, 884); (886, 887); (890, 893);
   (895, 895); (902, 902); (904, 906); (908, 908); (910, 929); (931, 1013);
   (1015, 1153); (1162, 1327); (1329, 1366); (1369, 1369); (1376, 1416); (1488, 1514);
   (1519, 1522); (1568, 1610); (1632, 1641); (1646, 1647); (1649, 1747); (1749, 1749);
   (1765, 1766); (1774, 1788); (1791, 1791); (1808, 1808); (1810, 1839); (1869, 1957);
   (1969, 1969); (1984, 2026); (2036, 2037); (2042, 2042); (2048, 2069); (2074, 2074);
   (2084, 2084); (2088, 2088); (2112, 2136); (2144, 2154); (2160, 2183); (2185, 2190);
   (2208, 2249); (2308, 2361); (2365, 2365); (2384, 2384); (2392, 2401); (2406, 2415);
   (2417, 2432); (2437, 2444); (2447, 2448); (2451, 2472); (2474, 2480); (2482, 2482);
   (2486, 2489); (2493, 2493); (2510, 2510); (2524, 2525); (2527, 2529); (2534, 2545);
   (2548, 2553); (2556, 2556); (2565, 2570); (2575, 2576); (2579, 2600); (2602, 2608);
   (2610, 2611); (2613, 2614); (2616, 2617); (2649, 2652); (2654, 2654); (2662, 2671);
   (2674, 2676); (2693, 2701); (2703, 2705); (2707, 2728); (2730, 2736); (2738, 2739);
   (2741, 2745); (2749, 2749); (2768, 2768); (2784, 2785); (2790, 2799); (2809, 2809);
   (2821, 2828); (2831, 2832); (2835, 2856); (2858, 2864); (2866, 2867); (2869, 2873);
   (2877, 2877); (2908, 2909); (2911, 2913); (2918, 2927); (2929, 2935); (2947, 2947);
   (2949, 2954); (2958, 2960); (2962, 2965); (2969, 2970); (2972, 2972); (2974, 2975);
   (2979, 2980); (2984, 2986); (2990, 3001); (3024, 3024); (3046, 3058); (3077, 3084);
   (3086, 3088); (3090, 3112); (3114, 3129); (3133, 3133); (3160, 3162); (3165, 3165);
   (3168, 3169); (3174, 3183); (3192, 3198); (3200, 3200); (3205, 3212); (3214, 3216);
   (3218, 3240); (3242, 3251); (3253, 3257); (3261, 3261); (3293, 3294); (3296, 3297);
   (3302, 3311); (3313, 3314); (3332, 3340); (3342, 3344); (3346, 3386); (3389, 3389);
   (3406, 3406); (3412, 3414); (3416, 3425); (3430, 3448); (3450, 3455); (3461, 3478);
   (3482, 3505); (3507, 3515); (3517, 3517); (3520, 3526); (3558, 3567); (3585, 3632);
   (3634, 3635); (3648, 3654); (3664, 3673); (3713, 3714); (3716, 3716); (3718, 3722);
   (3724, 3747); (3749, 3749); (3751, 3760); (3762, 3763); (3773, 3773); (3776, 3780);
   (3782, 3782); (3792, 3801); (3804, 3807); (3840, 3840); (3872, 3891); (3904, 3911);
   (3913, 3948); (3976, 3980); (4096, 4138); (4159, 4169); (4176, 4181); (4186, 4189);
   (4193, 4193); (4197, 4198); (4206, 4208); (4213, 4225); (4238, 4238); (4240, 4249);
   (4256, 4293); (4295, 4295); (4301, 4301); (4304, 4346); (4348, 4680); (4682, 4685);
   (4688, 4694); (4696, 4696); (4698, 4701); (4704, 4744); (4746, 4749); (4752, 4784);
   (4786, 4789); (4792, 4798); (4800, 4800); (4802, 4805); (4808, 4822); (4824, 4880);
   (4882, 4885); (4888, 4954); (4969, 4988); (4992, 5007); (5024, 5109); (5112, 5117);
   (5121, 5740); (5743, 5759); (5761, 5786); (5792, 5866); (5870, 5880); (5888, 5905);
   (5919, 5937); (5952, 5969); (5984, 5996); (5998, 6000); (6016, 6067); (6103, 6103);
   (6108, 6108); (6112, 6121); (6128, 6137); (6160, 6169); (6176, 6264); (6272, 6276);
   (6279, 6312); (6314, 6314); (6320, 6389); (6400, 6430); (6470, 6509); (6512, 6516);
   (6528, 6571); (6576, 6601); (6608, 6618); (6656, 6678); (6688, 6740); (6784, 6793);
   (6800, 6809); (6823, 6823); (6917, 6963); (6981, 6988); (6992, 7001); (7043, 7072);
   (7086, 7141); (7168, 7203); (7232, 7241); (7245, 7293); (7296, 7304); (7312, 7354);
   (7357, 7359); (7401, 7404); (7406, 7411); (7413, 7414); (7418, 7418); (7424, 7615);
   (7680, 7957); (7960, 7965); (7968, 8005); (8008, 8013); (8016, 8023); (8025, 8025);
   (8027, 8027); (8029, 8029); (8031, 8061); (8064, 8116); (8118, 8124); (8126, 8126);
   (8130, 8132); (8134, 8140); (8144, 8147); (8150, 8155); (8160, 8172); (8178, 8180);
   (8182, 8188); (8304, 8305); (8308, 8313); (8319, 8329); (8336, 8348); (8450, 8450);
   (8455, 8455); (8458, 8467); (8469, 8469); (8473, 8477); (8484, 8484); (8486, 8486);
   (8488, 8488); (8490, 8493); (8495, 8505); (8508, 8511); (8517, 8521); (8526, 8526);
   (8528, 8585); (9312, 9371); (9450, 9471); (10102, 10131); (11264, 11492); (11499, 11502);
   (11506, 11507); (11517, 11517); (11520, 11557); (11559, 11559); (11565, 11565); (11568, 11623);
   (11631, 11631); (11648, 11670); (11680, 11686); (11688, 11694); (11696, 11702); (11704, 11710);
   (11712, 11718); (11720, 11726); (11728, 11734); (11736, 11742); (11823, 11823); (12293, 12295);
   (12321, 12329); (12337, 12341); (12344, 12348); (12353, 12438); (12445, 12447); (12449, 12538);
   (12540, 12543); (12549, 12591); (12593, 12686); (12690, 12693); (12704, 12735); (12784, 12799);
   (12832, 12841); (12872, 12879); (12881, 12895); (12928, 12937); (12977, 12991); (13312, 19903);
   (19968, 42124); (42192, 42237); (42240, 42508); (42512, 42539); (42560, 42606); (42623, 42653);
   (42656, 42735); (42775, 42783); (42786, 42888); (42891, 42954); (42960, 42961); (42963, 42963);
   (42965, 42969); (42994, 43009); (43011, 43013); (43015, 43018); (43020, 43042); (43056, 43061);
   (43072, 43123); (43138, 43187); (43216, 43225); (43250, 43255); (43259, 43259); (43261, 43262);
   (43264, 43301); (43312, 43334); (43360, 43388); (43396, 43442); (43471, 43481); (43488, 43492);
   (43494, 43518); (43520, 43560); (43584, 43586); (43588, 43595); (43600, 43609); (43616, 43638);
   (43642, 43642); (43646, 43695); (43697, 43697); (43701, 43702); (43705, 43709); (43712, 43712);
   (43714, 43714); (43739, 43741); (43744, 43754); (43762, 43764); (43777, 43782); (43785, 43790);
   (43793, 43798); (43808, 43814); (43816, 43822); (43824, 43866); (43868, 43881); (43888, 44002);
   (44016, 44025); (44032, 55203); (55216, 55238); (55243, 55291); (63744, 64109); (64112, 64217);
   (64256, 64262); (64275, 64279); (64285, 64285); (64287, 64296); (64298, 64310); (64312, 64316);
   (64318, 64318); (64320, 64321); (64323, 64324); (64326, 64433); (64467, 64829); (64848, 64911);
   (64914, 64967); (65008, 65019); (65136, 65140); (65142, 65276); (65296, 65305); (65313, 65338);
   (65345, 65370); (65382, 65470); (65474, 65479); (65482, 65487); (65490, 65495); (65498, 65500);
   (65536, 65547); (65549, 65574); (65576, 65594); (65596, 65597); (65599, 65613); (65616, 65629);
   (65664, 65786); (65799, 65843); (65856, 65912); (65930, 65931); (66176, 66204); (66208, 66256);
   (66273, 66299); (66304, 66339); (66349, 66378); (66384, 66421); (66432, 66461); (66464, 66499);
   (66504, 66511); (66513, 66517); (66560, 66717); (66720, 66729); (66736, 66771); (66776, 66811);
   (66816, 66855); (66864, 66915); (66928, 66938); (66940, 66954); (66956, 66962); (66964, 66965);
   (66967, 66977); (66979, 66993); (66995, 67001); (67003, 67004); (67072, 67382); (67392, 67413);
   (67424, 67431); (67456, 67461); (67463, 67504); (67506, 67514); (67584, 67589); (67592, 67592);
   (67594, 67637); (67639, 67640); (67644, 67644); (67647, 67669); (67672, 67702); (67705, 67742);
   (67751, 67759); (67808, 67826); (67828, 67829); (67835, 67867); (67872, 67897); (67968, 68023);
   (68028, 68047); (68050, 68096); (68112, 68115); (68117, 68119); (68121, 68149); (68160, 68168);
   (68192, 68222); (68224, 68255); (68288, 68295); (68297, 68324); (68331, 68335); (68352, 68405);
   (68416, 68437); (68440, 68466); (68472, 68497); (68521, 68527); (68608, 68680); (68736, 68786);
   (68800, 68850); (68858, 68899); (68912, 68921); (69216, 69246); (69248, 69289); (69296, 69297);
   (69376, 69415); (69424, 69445); (69457, 69460); (69488, 69505); (69552, 69579); (69600, 69622);
   (69635, 69687); (69714, 69743); (69745, 69746); (69749, 69749); (69763, 69807); (69840, 69864);
   (69872, 69881); (69891, 69926); (69942, 69951); (69956, 69956); (69959, 69959); (69968, 70002);
   (70006, 70006); (70019, 70066); (70081, 70084); (70096, 70106); (70108, 70108); (70113, 70132);
   (70144, 70161); (70163, 70187); (70272, 70278); (70280, 70280); (70282, 70285); (70287, 70301);
   (70303, 70312); (70320, 70366); (70384, 70393); (70405, 70412); (70415, 70416); (70419, 70440);
   (70442, 70448); (70450, 70451); (70453, 70457); (70461, 70461); (70480, 70480); (70493, 70497);
   (70656, 70708); (70727, 70730); (70736, 70745); (70751, 70753); (70784, 70831); (70852, 70853);
   (70855, 70855); (70864, 70873); (71040, 71086); (71128, 71131); (71168, 71215); (71236, 71236);
   (71248, 71257); (71296, 71338); (71352, 71352); (71360, 71369); (71424, 71450); (71472, 71483);
   (71488, 71494); (71680, 71723); (71840, 71922); (71935, 71942); (71945, 71945); (71948, 71955);
   (71957, 71958); (71960, 71983); (71999, 71999); (72001, 72001); (72016, 72025); (72096, 72103);
   (72106, 72144); (72161, 72161); (72163, 72163); (72192, 72192); (72203, 72242); (72250, 72250);
   (72272, 72272); (72284, 72329); (72349, 72349); (72368, 72440); (72704, 72712); (72714, 72750);
   (72768, 72768); (72784, 72812); (72818, 72847); (72960, 72966); (72968, 72969); (72971, 73008);
   (73030, 73030); (73040, 73049); (73056, 73061); (73063, 73064); (73066, 73097); (73112, 73112);
   (73120, 73129); (73440, 73458); (73648, 73648); (73664, 73684); (73728, 74649); (74752, 74862);
   (74880, 75075); (77712, 77808); (77824, 78894); (82944, 83526); (92160, 92728); (92736, 92766);
   (92768, 92777); (92784, 92862); (92864, 92873); (92880, 92909); (92928, 92975); (92992, 92995);
   (93008, 93017); (93019, 93025); (93027, 93047); (93053, 93071); (93760, 93846); (93952, 94026);
   (94032, 94032); (94099, 94111); (94176, 94177); (94179, 94179); (94208, 100343); (100352, 101589);
   (101632, 101640); (110576, 110579); (110581, 110587); (110589, 110590); (110592, 110882); (110928, 110930);
   (110948, 110951); (110960, 111355); (113664, 113770); (113776, 113788); (113792, 113800); (113808, 113817);
   (119520, 119539); (119648, 119672); (119808, 119892); (119894, 119964); (119966, 119967); (119970, 119970);
   (119973, 119974); (119977, 119980); (119982, 119993); (119995, 119995); (119997, 120003); (120005, 120069);
   (120071, 120074); (120077, 120084); (120086, 120092); (120094, 120121); (120123, 120126); (120128, 120132);
   (120134, 120134); (120138, 120144); (120146, 120485); (120488, 120512); (120514, 120538); (120540, 120570);
   (120572, 120596); (120598, 120628); (120630, 120654); (120656, 120686); (120688, 120712); (120714, 120744);
   (120746, 120770); (120772, 120779); (120782, 120831); (122624, 122654); (123136, 123180); (123191, 123197);
   (123200, 123209); (123214, 123214); (123536, 123565); (123584, 123627); (123632, 123641); (124896, 124902);
   (124904, 124907); (124909, 124910); (124912, 124926); (124928, 125124); (125127, 125135); (125184, 125251);
   (125259, 125259); (125264, 125273); (126065, 126123); (126125, 126127); (126129, 126132); (126209, 126253);
   (126255, 126269); (126464, 126467); (126469, 126495); (126497, 126498); (126500, 126500); (126503, 126503);
   (126505, 126514); (126516, 126519); (126521, 126521); (126523, 126523); (126530, 126530); (126535, 126535);
   (126537, 126537); (126539, 126539); (126541, 126543); (126545, 126546); (126548, 126548); (126551, 126551);
   (126553, 126553); (126555, 126555); (126557, 126557); (126559, 126559); (126561, 126562); (126564, 126564);
   (126567, 126570); (126572, 126578); (126580, 126583); (126585, 126588); (126590, 126590); (126592, 126601);
   (126603, 126619); (126625, 126627); (126629, 126633); (126635, 126651); (127232, 127244); (130032, 130041);
   (131072, 173791); (173824, 177976); (177984, 178205); (178208, 183969); (183984, 191456); (194560, 195101);
   (196608, 201546)
  ]%N.

(** [str.isspace]. *)
Definition space_table : list (N * N) :=
  [
   (9, 13); (28, 32); (133, 133); (160, 160); (5760, 5760); (8192, 8202);
   (8232, 8233); (8239, 8239); (8287, 8287); (12288, 12288)
  ]%N.

(** [str.isdecimal]: general category Nd.  Every range starts at a digit
    zero and holds whole runs of the ten digits. *)
Definition decimal_table : list (N * N) :=
  [
   (48, 57); (1632, 1641); (1776, 1785); (1984, 1993); (2406, 2415); (2534, 2543);
   (2662, 2671); (2790, 2799); (2918, 2927); (3046, 3055); (3174, 3183); (3302, 3311);
   (3430, 3439); (3558, 3567); (3664, 3673); (3792, 3801); (3872, 3881); (4160, 4169);
   (4240, 4249); (6112, 6121); (6160, 6169); (6470, 6479); (6608, 6617); (6784, 6793);
   (6800, 6809); (6992, 7001); (7088, 7097); (7232, 7241); (7248, 7257); (42528, 42537);
   (43216, 43225); (43264, 43273); (43472, 43481); (43504, 43513); (43600, 43609); (44016, 44025);
   (65296, 65305); (66720, 66729); (68912, 68921); (69734, 69743); (69872, 69881); (69942, 69951);
   (70096, 70105); (70384, 70393); (70736, 70745); (70864, 70873); (71248, 71257); (71360, 71369);
   (71472, 71481); (71904, 71913); (72016, 72025); (72784, 72793); (73040, 73049); (73120, 73129);
   (92768, 92777); (92864, 92873); (93008, 93017); (120782, 120831); (123200, 123209); (123632, 123641);
   (125264, 125273); (130032, 130041)
  ]%N.

Definition isalnum (c : char) : bool := in_ranges alnum_table c.
Definition isspace (c : char) : bool := in_ranges space_table c.
Definition isdecimal (c : char) : bool := in_ranges decimal_table c.

Fixpoint decimal_in (t : list (N * N)) (c : char) : option N :=
  match t with
  | [] => None
  | (lo, hi) :: t' =>
      if (c <? lo)%N then None
      else if (c <=? hi)%N then Some ((c - lo) mod 10)%N
      else decimal_in t' c
  end.

(** [Py_UNICODE_TODECIMAL]. *)
Definition todecimal (c : char) : option N := decimal_in decimal_table c.

(** The characters matched by [\w]: alphanumerics and the underscore. *)
Definition is_word (c : char) : bool := isalnum c || (c =? 95)%N.

(** The characters in the range of the class [[一-鿿]]. *)
Definition is_cjk (c : char) : bool := (19968 <=? c)%N && (c <=? 40959)%N.

(** [str.lower], character by character.  Besides the ASCII capitals, the
    only character whose lowercase form holds an ASCII letter is U+0130,
    which becomes [i] followed by U+0307; U+212A (Kelvin sign) becomes [k].
    Other characters are left in place: their lowercase forms hold no ASCII
    character, so comparisons with ASCII words are unaffected. *)
Definition lower_char (c : char) : str :=
  if (65 <=? c)%N && (c <=? 90)%N then [(c + 32)%N]
  else if (c =? 304)%N then [105%N; 775%N]
  else if (c =? 8490)%N then [107%N]
  else [c].

Definition lower (s : str) : str := flat_map lower_char s.

(** *** Exceptions *)

Inductive exn := ValueError | KeyError | IndexError | OverflowError.

Inductive result (A : Type) :=
| Ok (a : A)
| Raise (e : exn).
Arguments Ok {A} a.
Arguments Raise {A} e.

Definition bind {A B} (x : result A) (f : A -> result B) : result B :=
  match x with
  | Ok a => f a
  | Raise e => Raise e
  end.

Notation "x <- c ;; k" := (bind c (fun x => k))
  (at level 61, c at next level, right associativity).

(** [s[i]] *)
Definition index (s : str) (i : nat) : result char :=
  match nth_error s i with
  | Some c => Ok c
  | None => Raise IndexError
  end.

(** *** [int(s, base)]

    The string is first brought to ASCII
    ([_PyUnicode_TransformDecimalAndSpaceToASCII]): Unicode spaces become a
    blank, Unicode decimal digits their ASCII digit, anything else outside
    ASCII a question mark.  Then come optional blanks, an optional sign, for
    base 16 an optional [0x] or [0X] (and one underscore after it), and the
    digits, where single underscores may stand between two digits. *)

Definition to_ascii (c : char) : char :=
  if (c <? 127)%N then c
  else if isspace c then 32%N
  else match todecimal c with
       | Some d => (48 + d)%N
       | None => 63%N
       end.

Definition ascii_space (c : char) : bool :=
  ((9 <=? c)%N && (c <=? 13)%N) || (c =? 32)%N.

Definition digit_value (c : char) : option N :=
  if (48 <=? c)%N && (c <=? 57)%N then Some (c - 48)%N
  else if (97 <=? c)%N && (c <=? 122)%N then Some (c - 87)%N
  else if (65 <=? c)%N && (c <=? 90)%N then Some (c - 55)%N
  else None.

Fixpoint drop_while (p : char -> bool) (s : str) : str :=
  match s with
  | c :: s' => if p c then drop_while p s' else s
  | [] => []
  end.

(** The digits after sign and prefix: [acc] is the value so far, [n] the
    number of digits read, [prev_digit] whether the last character was a
    digit (an underscore must follow a digit and be followed by one). *)
Fixpoint int_digits (base : N) (s : str) (acc : N) (n : nat)
  (prev_digit : bool) : option (N * nat) :=
  match s with
  | [] => if prev_digit then Some (acc, n) else None
  | c :: s' =>
      if (c =? 95)%N then
        if prev_digit then int_digits base s' acc n false else None
      else
        match digit_value c with
        | Some d =>
            if (d <? base)%N
            then int_digits base s' (acc * base + d)%N (S n) true
            else None
        | None => None
        end
  end.

(** [sys.get_int_max_str_digits()]: the bound on the number of digits of a
    decimal literal (bases that are powers of two are exempt). *)
Definition int_max_str_digits : nat := 4300.

Definition int (s : str) (base : N) : result Z :=
  let a := map to_ascii s in
  let a := drop_while ascii_space a in
  let a := rev (drop_while ascii_space (rev a)) in
  let '(neg, a) :=
    match a with
    | c :: a' =>
        if (c =? 43)%N then (false, a')
        else if (c =? 45)%N then (true, a')
        else (false, a)
    | [] => (false, a)
    end in
  let a :=
    match a with
    | c :: x :: a' =>
        if (c =? 48)%N && (base =? 16)%N && ((x =? 120)%N || (x =? 88)%N) then
          match a' with
          | y :: a'' => if (y =? 95)%N then a'' else a'
          | [] => a'
          end
        else a
    | _ => a
    end in
  match int_digits base a 0%N 0 false with
  | Some (v, n) =>
      if (base =? 10)%N && (int_max_str_digits <? n)%nat then Raise ValueError
      else Ok (if neg then (- Z.of_N v)%Z else Z.of_N v)
  | None => Raise ValueError
  end.

(** [chr(i)]: [ValueError] outside [range(0x110000)], [OverflowError] when
    the argument does not fit a C [int]. *)
Definition chr (i : Z) : result char :=
  if ((0 <=? i) && (i <? 1114112))%Z then Ok (Z.to_N i)
  else if ((-2147483648 <=? i) && (i <=? 2147483647))%Z then Raise ValueError
  else Raise OverflowError.

(** *** [html.entities.name2codepoint] *)

Definition ent (name : string) (code : N) : string * N := (name, code).

Definition name2codepoint_table : list (string * N) :=
  [
   ent "AElig" 198; ent "Aacute" 193; ent "Acirc" 194; ent "Agrave" 192; ent "Alpha" 913;
   ent "Aring" 197; ent "Atilde" 195; ent "Auml" 196; ent "Beta" 914; ent "Ccedil" 199;
   ent "Chi" 935; ent "Dagger" 8225; ent "Delta" 916; ent "ETH" 208; ent "Eacute" 201;
   ent "Ecirc" 202; ent "Egrave" 200; ent "Epsilon" 917; ent "Eta" 919; ent "Euml" 203;
   ent "Gamma" 915; ent "Iacute" 205; ent "Icirc" 206; ent "Igrave" 204; ent "Iota" 921;
   ent "Iuml" 207; ent "Kappa" 922; ent "Lambda" 923; ent "Mu" 924; ent "Ntilde" 209;
   ent "Nu" 925; ent "OElig" 338; ent "Oacute" 211; ent "Ocirc" 212; ent "Ograve" 210;
   ent "Omega" 937; ent "Omicron" 927; ent "Oslash" 216; ent "Otilde" 213; ent "Ouml" 214;
   ent "Phi" 934; ent "Pi" 928; ent "Prime" 8243; ent "Psi" 936; ent "Rho" 929;
   ent "Scaron" 352; ent "Sigma" 931; ent "THORN" 222; ent "Tau" 932; ent "Theta" 920;
   ent "Uacute" 218; ent "Ucirc" 219; ent "Ugrave" 217; ent "Upsilon" 933; ent "Uuml" 220;
   ent "Xi" 926; ent "Yacute" 221; ent "Yuml" 376; ent "Zeta" 918; ent "aacute" 225;
   ent "acirc" 226; ent "acute" 180; ent "aelig" 230; ent "agrave" 224; ent "alefsym" 8501;
   ent "alpha" 945; ent "amp" 38; ent "and" 8743; ent "ang" 8736; ent "aring" 229;
   ent "asymp" 8776; ent "atilde" 227; ent "auml" 228; ent "bdquo" 8222; ent "beta" 946;
   ent "brvbar" 166; ent "bull" 8226; ent "cap" 8745; ent "ccedil" 231; ent "cedil" 184;
   ent "cent" 162; ent "chi" 967; ent "circ" 710; ent "clubs" 9827; ent "cong" 8773;
   ent "copy" 169; ent "crarr" 8629; ent "cup" 8746; ent "curren" 164; ent "dArr" 8659;
   ent "dagger" 8224; ent "darr" 8595; ent "deg" 176; ent "delta" 948; ent "diams" 9830;
   ent "divide" 247; ent "eacute" 233; ent "ecirc" 234; ent "egrave" 232; ent "empty" 8709;
   ent "emsp" 8195; ent "ensp" 8194; ent "epsilon" 949; ent "equiv" 8801; ent "eta" 951;
   ent "eth" 240; ent "euml" 235; ent "euro" 8364; ent "exist" 8707; ent "fnof" 402;
   ent "forall" 8704; ent "frac12" 189; ent "frac14" 188; ent "frac34" 190; ent "frasl" 8260;
   ent "gamma" 947; ent "ge" 8805; ent "gt" 62; ent "hArr" 8660; ent "harr" 8596;
   ent "hearts" 9829; ent "hellip" 8230; ent "iacute" 237; ent "icirc" 238; ent "iexcl" 161;
   ent "igrave" 236; ent "image" 8465; ent "infin" 8734; ent "int" 8747; ent "iota" 953;
   ent "iquest" 191; ent "isin" 8712; ent "iuml" 239; ent "kappa" 954; ent "lArr" 8656;
   ent "lambda" 955; ent "lang" 9001; ent "laquo" 171; ent "larr" 8592; ent "lceil" 8968;
   ent "ldquo" 8220; ent "le" 8804; ent "lfloor" 8970; ent "lowast" 8727; ent "loz" 9674;
   ent "lrm" 8206; ent "lsaquo" 8249; ent "lsquo" 8216; ent "lt" 60; ent "macr" 175;
   ent "mdash" 8212; ent "micro" 181; ent "middot" 183; ent "minus" 8722; ent "mu" 956;
   ent "nabla" 8711; ent "nbsp" 160; ent "ndash" 8211; ent "ne" 8800; ent "ni" 8715;
   ent "not" 172; ent "notin" 8713; ent "nsub" 8836; ent "ntilde" 241; ent "nu" 957;
   ent "oacute" 243; ent "ocirc" 244; ent "oelig" 339; ent "ograve" 242; ent "oline" 8254;
   ent "omega" 969; ent "omicron" 959; ent "oplus" 8853; ent "or" 8744; ent "ordf" 170;
   ent "ordm" 186; ent "oslash" 248; ent "otilde" 245; ent "otimes" 8855; ent "ouml" 246;
   ent "para" 182; ent "part" 8706; ent "permil" 8240; ent "perp" 8869; ent "phi" 966;
   ent "pi" 960; ent "piv" 982; ent "plusmn" 177; ent "pound" 163; ent "prime" 8242;
   ent "prod" 8719; ent "prop" 8733; ent "psi" 968; ent "quot" 34; ent "rArr" 8658;
   ent "radic" 8730; ent "rang" 9002; ent "raquo" 187; ent "rarr" 8594; ent "rceil" 8969;
   ent "rdquo" 8221; ent "real" 8476; ent "reg" 174; ent "rfloor" 8971; ent "rho" 961;
   ent "rlm" 8207; ent "rsaquo" 8250; ent "rsquo" 8217; ent "sbquo" 8218; ent "scaron" 353;
   ent "sdot" 8901; ent "sect" 167; ent "shy" 173; ent "sigma" 963; ent "sigmaf" 962;
   ent "sim" 8764; ent "spades" 9824; ent "sub" 8834; ent "sube" 8838; ent "sum" 8721;
   ent "sup" 8835; ent "sup1" 185; ent "sup2" 178; ent "sup3" 179; ent "supe" 8839;
   ent "szlig" 223; ent "tau" 964; ent "there4" 8756; ent "theta" 952; ent "thetasym" 977;
   ent "thinsp" 8201; ent "thorn" 254; ent "tilde" 732; ent "times" 215; ent "trade" 8482;
   ent "uArr" 8657; ent "uacute" 250; ent "uarr" 8593; ent "ucirc" 251; ent "ugrave" 249;
   ent "uml" 168; ent "upsih" 978; ent "upsilon" 965; ent "uuml" 252; ent "weierp" 8472;
   ent "xi" 958; ent "yacute" 253; ent "yen" 165; ent "yuml" 255; ent "zeta" 950;
   ent "zwj" 8205; ent "zwnj" 8204
  ].

Fixpoint lookup (t : list (string * N)) (k : str) : result Z :=
  match t with
  | [] => Raise KeyError
  | (name, v) :: t' => if str_eqb (u name) k then Ok (Z.of_N v) else lookup t' k
  end.

(** [name2codepoint[k]] *)
Definition name2codepoint (k : str) : result Z := lookup name2codepoint_table k.

(** *** String methods *)

Definition lstrip (s : str) : str := drop_while isspace s.
Definition rstrip (s : str) : str := rev (drop_while isspace (rev s)).
(** [s.strip()] *)
Definition strip (s : str) : str := rstrip (lstrip s).

(** [s.split(sep)] for a one-character separator. *)
Fixpoint split (sep : char) (s : str) : list str :=
  match s with
  | [] => [[]]
  | c :: s' =>
      if (c =? sep)%N then [] :: split sep s'
      else match split sep s' with
           | l :: ls => (c :: l) :: ls
           | [] => [[c]]
           end
  end.

(** [sep.join(parts)] *)
Fixpoint join (sep : str) (parts : list str) : str :=
  match parts with
  | [] => []
  | [p] => p
  | p :: ps => p ++ sep ++ join sep ps
  end.

(** [s.count(c)] for a one-character argument. *)
Definition count (c : char) (s : str) : nat :=
  List.length (filter (fun x => (x =? c)%N) s).

(** [c in s] *)
Definition contains (c : char) (s : str) : bool := existsb (fun x => (x =? c)%N) s.

Fixpoint find_from (c : char) (s : str) (i : Z) : Z :=
  match s with
  | [] => (-1)%Z
  | x :: s' => if (x =? c)%N then i else find_from c s' (i + 1)%Z
  end.

(** [s.find(c)] for a one-character argument: the first index or [-1]. *)
Definition find (c : char) (s : str) : Z := find_from c s 0%Z.

(** [s[a:b]] for [0 <= a], [0 <= b]. *)
Definition slice (s : str) (a b : nat) : str := firstn (b - a) (skipn a s).

End Py.

(** ** The backtracking matcher of the [re] module

    Patterns are given in compiled form.  The constructs are those of the
    patterns of clean.py: literals, classes, sequence, alternation, the
    optional [r?], counted repetition of a single character or class
    (greedy or lazy), capturing groups, [^] and [\b]. *)

Module Re.
Import Py.

Inductive citem :=
| CC (c : char)        (** one character *)
| CR (lo hi : char)    (** a range [lo-hi] *)
| CW                   (** [\w] *)
| CS                   (** [\s] *)
| CD.                  (** [\d] *)

(** A class [[...]] or, with [cs_neg], [[^...]]. *)
Record cset := { cs_neg : bool; cs_items : list citem }.

Definition citem_match (i : citem) (c : char) : bool :=
  match i with
  | CC x => (c =? x)%N
  | CR lo hi => (lo <=? c)%N && (c <=? hi)%N
  | CW => is_word c
  | CS => isspace c
  | CD => isdecimal c
  end.

Definition cs_match (cs : cset) (c : char) : bool :=
  xorb (cs_neg cs) (existsb (fun i => citem_match i c) (cs_items cs)).

(** [sre_lower_unicode] on the characters that fold to an ASCII letter. *)
Definition sre_lower (c : char) : char :=
  if (65 <=? c)%N && (c <=? 90)%N then (c + 32)%N
  else if (c =? 304)%N then 105%N
  else if (c =? 8490)%N then 107%N
  else c.

(** A literal [p] of a pattern compiled with [re.IGNORECASE], against the
    character [c]: [c] folds to [p] or to one of the extra equivalents of
    [p] (U+0131 for [i], U+017F for [s]). *)
Definition ci_match (p c : char) : bool :=
  let l := sre_lower c in
  (l =? p)%N || ((p =? 105)%N && (l =? 305)%N) || ((p =? 115)%N && (l =? 383)%N).

Inductive re :=
| Eps
| Chr (c : char)
| ChrI (c : char)
| In (cs : cset)
| Seq (r1 r2 : re)
| Alt (r1 r2 : re)
| Opt (r : re)
| Rep (lo : nat) (hi : option nat) (greedy : bool) (cs : cset)
| Grp (i : nat) (r : re)
| Bol
| Wb.

(** The state of a match attempt: the character before the current
    position, the text from the current position on, the position, and the
    groups captured so far (the latest first). *)
Record mstate := MS {
  ms_prev : option char;
  ms_rest : str;
  ms_pos : nat;
  ms_caps : list (nat * str) }.

Definition cont := mstate -> option mstate.

Definition step (p : char -> bool) (st : mstate) (k : cont) : option mstate :=
  match ms_rest st with
  | c :: rest' =>
      if p c then k (MS (Some c) rest' (S (ms_pos st)) (ms_caps st)) else None
  | [] => None
  end.

Fixpoint take_n (p : char -> bool) (n : nat) (st : mstate) (k : cont)
  : option mstate :=
  match n with
  | 0 => k st
  | S n' => step p st (fun st' => take_n p n' st' k)
  end.

Definition room (hi : option nat) : bool :=
  match hi with
  | Some 0 => false
  | _ => true
  end.

Definition less (hi : option nat) : option nat := option_map pred hi.

(** Greedy repetition: as many characters as possible first. *)
Fixpoint more_greedy (p : char -> bool) (hi : option nat) (prev : option char)
  (rest : str) (pos : nat) (caps : list (nat * str)) (k : cont)
  : option mstate :=
  match rest with
  | c :: rest' =>
      if p c && room hi then
        match more_greedy p (less hi) (Some c) rest' (S pos) caps k with
        | Some a => Some a
        | None => k (MS prev rest pos caps)
        end
      else k (MS prev rest pos caps)
  | [] => k (MS prev rest pos caps)
  end.

(** Lazy repetition: as few characters as possible first. *)
Fixpoint more_lazy (p : char -> bool) (hi : option nat) (prev : option char)
  (rest : str) (pos : nat) (caps : list (nat * str)) (k : cont)
  : option mstate :=
  match k (MS prev rest pos caps) with
  | Some a => Some a
  | None =>
      match rest with
      | c :: rest' =>
          if p c && room hi
          then more_lazy p (less hi) (Some c) rest' (S pos) caps k
          else None
      | [] => None
      end
  end.

Definition more (greedy : bool) (p : char -> bool) (hi : option nat)
  (st : mstate) (k : cont) : option mstate :=
  if greedy
  then more_greedy p hi (ms_prev st) (ms_rest st) (ms_pos st) (ms_caps st) k
  else more_lazy p hi (ms_prev st) (ms_rest st) (ms_pos st) (ms_caps st) k.

Definition word_before (st : mstate) : bool :=
  match ms_prev st with
  | Some c => is_word c
  | None => false
  end.

Definition word_after (st : mstate) : bool :=
  match ms_rest st with
  | c :: _ => is_word c
  | [] => false
  end.

Definition set_cap (i : nat) (from to : mstate) : mstate :=
  MS (ms_prev to) (ms_rest to) (ms_pos to)
     ((i, firstn (ms_pos to - ms_pos from) (ms_rest from)) :: ms_caps to).

(** [m r st k]: match [r] at [st] and go on with [k]; the alternatives are
    tried in the order of the engine and the first that lets [k] succeed
    wins. *)
Fixpoint m (r : re) (st : mstate) (k : cont) : option mstate :=
  match r with
  | Eps => k st
  | Chr c => step (N.eqb c) st k
  | ChrI c => step (ci_match c) st k
  | In cs => step (cs_match cs) st k
  | Seq r1 r2 => m r1 st (fun st' => m r2 st' k)
  | Alt r1 r2 =>
      match m r1 st k with
      | Some a => Some a
      | None => m r2 st k
      end
  | Opt r1 =>
      match m r1 st k with
      | Some a => Some a
      | None => k st
      end
  | Rep lo hi greedy cs =>
      take_n (cs_match cs) lo st
        (fun st' => more greedy (cs_match cs) (option_map (fun h => h - lo) hi) st' k)
  | Grp i r1 => m r1 st (fun st' => k (set_cap i st st'))
  | Bol =>
      match ms_prev st with
      | None => k st
      | Some _ => None
      end
  | Wb => if xorb (word_before st) (word_after st) then k st else None
  end.

(** A match object: [start()], [end()], [group(0)] and the other groups. *)
Record rmatch := RM {
  m_start : nat;
  m_end : nat;
  m_text : str;
  m_groups : list (nat * str) }.

Fixpoint assoc (i : nat) (l : list (nat * str)) : option str :=
  match l with
  | [] => None
  | (j, s) :: l' => if (i =? j)%nat then Some s else assoc i l'
  end.

(** [mt.group(i)], [None] for a group that took no part in the match. *)
Definition group (mt : rmatch) (i : nat) : option str := assoc i (m_groups mt).

(** A group in a replacement template ([\1]): empty when unmatched. *)
Definition tgroup (mt : rmatch) (i : nat) : str :=
  match group mt i with
  | Some s => s
  | None => []
  end.

(** One attempt at the position [pos]; with [must_advance] the empty match
    is refused (it would repeat the previous empty match of a scan). *)
Definition match_here (r : re) (must_advance : bool) (prev : option char)
  (rest : str) (pos : nat) : option rmatch :=
  match m r (MS prev rest pos [])
          (fun st' => if must_advance && (ms_pos st' =? pos)%nat
                      then None else Some st') with
  | Some st' =>
      Some (RM pos (ms_pos st') (firstn (ms_pos st' - pos) rest) (ms_caps st'))
  | None => None
  end.

(** The leftmost match from [pos] on. *)
Fixpoint search_go (r : re) (must_advance : bool) (prev : option char)
  (rest : str) (pos : nat) : option rmatch :=
  match match_here r must_advance prev rest pos with
  | Some mt => Some mt
  | None =>
      match rest with
      | [] => None
      | c :: rest' => search_go r false (Some c) rest' (S pos)
      end
  end.

Definition char_before (text : str) (pos : nat) : option char :=
  match pos with
  | 0 => None
  | S p => nth_error text p
  end.

(** [pattern.search(text, pos)] *)
Definition search_at (r : re) (text : str) (pos : nat) : option rmatch :=
  let pos := Nat.min pos (List.length text) in
  search_go r false (char_before text pos) (skipn pos text) pos.

(** [re.search(pattern, text)] *)
Definition search (r : re) (text : str) : option rmatch := search_at r text 0.

(** [re.match(pattern, text)] *)
Definition match_ (r : re) (text : str) : option rmatch :=
  match_here r false None text 0.

(** The scan shared by [re.sub] and [re.findall]: the text cut into the
    successive non-overlapping matches and the characters between them.
    After an empty match the same position is tried once more for a match
    that advances. *)
Inductive piece :=
| Lit (c : char)
| Hit (mt : rmatch).

Fixpoint scan (r : re) (prev : option char) (rest : str) (pos skip : nat)
  : list piece :=
  match rest with
  | [] =>
      match skip with
      | 0 =>
          match match_here r false prev [] pos with
          | Some mt => [Hit mt]
          | None => []
          end
      | S _ => []
      end
  | c :: rest' =>
      match skip with
      | S n => scan r (Some c) rest' (S pos) n
      | 0 =>
          match match_here r false prev rest pos with
          | Some mt =>
              if (m_end mt =? pos)%nat then
                Hit mt ::
                  match match_here r true prev rest pos with
                  | Some mt' =>
                      Hit mt' :: scan r (Some c) rest' (S pos) (m_end mt' - pos - 1)
                  | None => Lit c :: scan r (Some c) rest' (S pos) 0
                  end
              else Hit mt :: scan r (Some c) rest' (S pos) (m_end mt - pos - 1)
          | None => Lit c :: scan r (Some c) rest' (S pos) 0
          end
      end
  end.

Definition finditer (r : re) (text : str) : list piece := scan r None text 0 0.

(** [re.sub(pattern, repl, text)] with [repl] a function of the match (a
    template such as [\1] is the function that expands it). *)
Definition sub (r : re) (repl : rmatch -> str) (text : str) : str :=
  flat_map (fun p => match p with Lit c => [c] | Hit mt => repl mt end)
           (finditer r text).

(** [re.findall(pattern, text)], as the list of its matches. *)
Definition findall (r : re) (text : str) : list rmatch :=
  flat_map (fun p => match p with Lit _ => [] | Hit mt => [mt] end)
           (finditer r text).

(** *** Writing patterns *)

Fixpoint lit (s : str) : re :=
  match s with
  | [] => Eps
  | [c] => Chr c
  | c :: s' => Seq (Chr c) (lit s')
  end.

Fixpoint liti (s : str) : re :=
  match s with
  | [] => Eps
  | [c] => ChrI c
  | c :: s' => Seq (ChrI c) (liti s')
  end.

Fixpoint seq (rs : list re) : re :=
  match rs with
  | [] => Eps
  | [r] => r
  | r :: rs' => Seq r (seq rs')
  end.

Fixpoint alt (rs : list re) : re :=
  match rs with
  | [] => Eps
  | [r] => r
  | r :: rs' => Alt r (alt rs')
  end.

Definition one_of (s : string) : list citem := map CC (u s).
Definition set (items : list citem) : cset := {| cs_neg := false; cs_items := items |}.
Definition nset (items : list citem) : cset := {| cs_neg := true; cs_items := items |}.

(** [.] without and with [re.DOTALL]. *)
Definition dot : cset := nset [CC 10%N].
Definition dotall : cset := nset [].

Definition star (cs : cset) : re := Rep 0 None true cs.
Definition star_lazy (cs : cset) : re := Rep 0 None false cs.
Definition plus (cs : cset) : re := Rep 1 None true cs.

End Re.

(** ** clean.py *)

Import Re.
Abbreviation char := Py.char.
Abbreviation str := Py.str.
Abbreviation u := Py.u.

(** The single character written in [s]. *)
Definition ch (s : string) : char := hd 0%N (u s).

Definition sp : cset := set [CS].

(** [discardElements].  The source holds the names in a [set], which
    [clean_text] iterates in an order that depends on the hash seed of the
    process; [clean_text] below takes the order of iteration as an
    argument, and this is the order in which the source lists the names. *)
Definition discardElements : list str := map u
  [ "gallery"; "timeline"; "noinclude"; "pre"; "table"; "tr"; "td"; "th"; "caption";
    "form"; "input"; "select"; "option"; "textarea"; "ul"; "li"; "ol"; "dl"; "dt"; "dd";
    "menu"; "dir"; "ref"; "references"; "img"; "imagemap"; "source"; "math"; "code" ]%string.

Definition ignoredTags : list str := map u
  [ "b"; "big"; "blockquote"; "center"; "cite"; "div"; "em"; "font";
    "h1"; "h2"; "h3"; "h4"; "hiero"; "i"; "kbd"; "nowiki"; "p";
    "plaintext"; "s"; "small"; "span"; "strike"; "strong"; "sub"; "sup"; "tt"; "u"; "var" ]%string.

Definition selfClosingTags : list str := map u
  [ "br"; "hr"; "nobr"; "ref"; "references" ]%string.

(** *** unescape *)

(** ["&#?(\w+);"] *)
Definition entity_re : re :=
  seq [Chr (ch "&"); Opt (Chr (ch "#")); Grp 1 (plus (set [CW])); Chr (ch ";")].

(** The body of the [try] of [fixup]; [text] is [m.group(0)] and [code] is
    [m.group(1)], which takes part in every match. *)
Definition fixup_try (mt : rmatch) : Py.result str :=
  let text := m_text mt in
  let code := tgroup mt 1 in
  Py.bind (Py.index text 1) (fun c1 =>
  if (c1 =? ch "#")%N then
    Py.bind (Py.index text 2) (fun c2 =>
    if (c2 =? ch "x")%N then
      Py.bind (Py.int (skipn 1 code) 16) (fun n =>
      Py.bind (Py.chr n) (fun c => Py.Ok [c]))
    else
      Py.bind (Py.int code 10) (fun n =>
      Py.bind (Py.chr n) (fun c => Py.Ok [c])))
  else
    Py.bind (Py.name2codepoint code) (fun n =>
    Py.bind (Py.chr n) (fun c => Py.Ok [c]))).

(** [fixup]: any exception of the [try] gives the reference back as it is. *)
Definition fixup (mt : rmatch) : str :=
  match fixup_try mt with
  | Py.Ok s => s
  | Py.Raise _ => m_text mt
  end.

Definition unescape (text : str) : str := sub entity_re fixup text.

(** *** dropNested *)

Definition span := (nat * nat)%type.

(** The variables [start] and [next] hold match objects of [openRE], which
    the loop compares by identity ([next != start]): an object is kept with
    the serial number of the search that made it. *)
Definition omatch := (nat * rmatch)%type.

Definition same (a b : omatch) : bool := (fst a =? fst b)%nat.

Section DropNested.

Variable text : str.
Variables openRE closeRE : re.

(** [[
    while nest:
        nest -= 1
        end0 = closeRE.search(text, end.end())
        if end0: end = end0
        else: break
    ]] *)
Fixpoint drain (nest : nat) (end_ : rmatch) : rmatch :=
  match nest with
  | 0 => end_
  | S nest' =>
      match search_at closeRE text (m_end end_) with
      | Some end0 => drain nest' end0
      | None => end_
      end
  end.

(** The loop [while end.end() < next.start()], from its entry to its exit:
    the values of [nest], [start], [end] and [matches] after it. *)
Fixpoint inner (nest : nat) (start : omatch) (end_ : rmatch) (next : omatch)
  (matches : list span) : nat * omatch * option rmatch * list span :=
  if (m_end end_ <? m_start (snd next))%nat then
    match nest with
    | S nest' =>
        let last := m_end end_ in
        match search_at closeRE text (m_end end_) with
        | Some end' => inner nest' start end' next matches
        | None =>
            let span :=
              match matches with
              | (s0, _) :: _ => (s0, last)
              | [] => (m_start (snd start), last)
              end in
            (nest', start, None, [span])
        end
    | 0 =>
        (0, next, search_at closeRE text (m_end (snd next)),
         matches ++ [(m_start (snd start), m_end end_)])
    end
  else (nest, start, Some end_, matches).

(** The loop [while end], at most [fuel] times around; [serial] numbers the
    next match object of [openRE].  [None] stands for a loop that has not
    come to its end within [fuel] rounds. *)
Fixpoint outer (fuel : nat) (nest : nat) (start : omatch) (end_ : option rmatch)
  (next : omatch) (serial : nat) (matches : list span) : option (list span) :=
  match end_ with
  | None => Some matches
  | Some e =>
      match fuel with
      | 0 => None
      | S fuel' =>
          match search_at openRE text (m_end (snd next)) with
          | None =>
              Some (matches ++ [(m_start (snd start), m_end (drain nest e))])
          | Some nx =>
              let next := (serial, nx) in
              let '(nest, start, end_, matches) := inner nest start e next matches in
              let nest := if negb (same next start) then S nest else nest in
              outer fuel' nest start end_ next (S serial) matches
          end
      end
  end.

(** The text outside the spans of [matches], from [start] on. *)
Fixpoint collect (matches : list span) (start : nat) : str :=
  match matches with
  | [] => skipn start text
  | (s, e) :: matches' => Py.slice text start s ++ collect matches' e
  end.

(** The spans found by the scan, [None] when [fuel] rounds do not end it. *)
Definition dropNested_spans (fuel : nat) : option (list span) :=
  match search_at openRE text 0 with
  | None => Some []
  | Some st =>
      let start := (0, st) in
      outer fuel 0 start (search_at closeRE text (m_end st)) start 1 []
  end.

Definition dropNested_fuel (fuel : nat) : option str :=
  match search_at openRE text 0 with
  | None => Some text
  | Some st =>
      let start := (0, st) in
      match outer fuel 0 start (search_at closeRE text (m_end st)) start 1 [] with
      | Some matches => Some (collect matches 0)
      | None => None
      end
  end.

(** One round per character of the text and one more are enough when
    [openRE] matches no empty string (theorem [dropNested_total] below);
    the last branch is then never taken. *)
Definition dropNested : str :=
  match dropNested_fuel (S (List.length text)) with
  | Some res => res
  | None => text
  end.

End DropNested.

(** *** clean_text *)

Definition empty (_ : rmatch) : str := [].
(** The template [\1]. *)
Definition group1 (mt : rmatch) : str := tgroup mt 1.

(** [(参见|注释|参考文献?|参考书目|外部链接|延伸阅读|相关条目|另见|参考资料|脚注)];
    the pattern is compiled with [re.IGNORECASE], which leaves these
    caseless literals as they are. *)
Definition end_sections : re :=
  Grp 1 (alt [lit (u "参见"); lit (u "注释");
              Seq (lit (u "参考文")) (Opt (Chr (ch "献")));
              lit (u "参考书目"); lit (u "外部链接"); lit (u "延伸阅读");
              lit (u "相关条目"); lit (u "另见"); lit (u "参考资料");
              lit (u "脚注")]).

(** Step 1: cut the text at the first match of [end_sections]. *)
Definition early_truncation (text : str) : str :=
  match search end_sections text with
  | Some mt => firstn (m_start mt) text
  | None => text
  end.

(** [<!--.*?-->] with [re.DOTALL] *)
Definition comment_re : re := seq [lit (u "<!--"); star_lazy dotall; lit (u "-->")].

Definition template_open : re := lit (u "{{").
Definition template_close : re := lit (u "}}").
Definition table_open : re := lit (u "{|").
Definition table_close : re := lit (u "|}").

(** [\[\[([^[]*?)(?:\|([^[]*?))?\]\]] and after it the third group, [\w*] *)
Definition wikiLink : re :=
  seq [lit (u "[["); Grp 1 (star_lazy (nset (one_of "[")));
       Opt (Seq (Chr (ch "|")) (Grp 2 (star_lazy (nset (one_of "[")))));
       lit (u "]]"); Grp 3 (star (set [CW]))].

Definition truthy (o : option str) : bool :=
  match o with
  | Some (_ :: _) => true
  | _ => false
  end.

Definition process_wikilink (mt : rmatch) : str :=
  let link := tgroup mt 1 in
  let anchor := if truthy (group mt 2) then tgroup mt 2 else link in
  let trail := if truthy (group mt 3) then tgroup mt 3 else [] in
  let colon := Py.find (ch ":") link in
  if (0 <? colon)%Z &&
     existsb (Py.str_eqb (Py.lower (firstn (Z.to_nat colon) link)))
             (map u ["file"; "image"; "media"; "category"]%string)
  then []
  else anchor ++ trail.

(** [\[\[.*?\]\]] *)
Definition leftover_link : re := seq [lit (u "[["); star_lazy dot; lit (u "]]")].

(** Step 4: internal links. *)
Definition wikilinks (text : str) : str :=
  let text := sub wikiLink process_wikilink text in
  sub leftover_link empty text.

Definition http : re := Seq (lit (u "http")) (Seq (Opt (Chr (ch "s"))) (lit (u "://"))).

(** [\[https?://[^\s\]]+\s+([^\]]+)\]] *)
Definition labelled_url : re :=
  seq [Chr (ch "["); http; plus (nset (CS :: one_of "]")); plus sp;
       Grp 1 (plus (nset (one_of "]"))); Chr (ch "]")].
(** [\[https?://[^\]]+\]] *)
Definition bracketed_url : re :=
  seq [Chr (ch "["); http; plus (nset (one_of "]")); Chr (ch "]")].
(** [https?://[^\s\n]+] *)
Definition bare_url : re := Seq http (plus (nset [CS; CC 10%N])).

(** Step 5: external links. *)
Definition external_links (text : str) : str :=
  let text := sub labelled_url group1 text in
  let text := sub bracketed_url empty text in
  sub bare_url empty text.

(** [<\s*%s\b[^>]*>.*?<\s*/\s*%s>] with [re.DOTALL | re.IGNORECASE] *)
Definition discard_re (tag : str) : re :=
  seq [Chr (ch "<"); star sp; liti tag; Wb; star (nset (one_of ">")); Chr (ch ">");
       star_lazy dotall;
       Chr (ch "<"); star sp; Chr (ch "/"); star sp; liti tag; Chr (ch ">")].
(** [<\s*%s\b[^/]*/\s*>] with [re.DOTALL | re.IGNORECASE] *)
Definition selfclosing_re (tag : str) : re :=
  seq [Chr (ch "<"); star sp; liti tag; Wb; star (nset (one_of "/")); Chr (ch "/");
       star sp; Chr (ch ">")].
(** [<\s*%s\b[^>]*>] with [re.IGNORECASE] *)
Definition open_tag_re (tag : str) : re :=
  seq [Chr (ch "<"); star sp; liti tag; Wb; star (nset (one_of ">")); Chr (ch ">")].
(** [<\s*/\s*%s>] with [re.IGNORECASE] *)
Definition close_tag_re (tag : str) : re :=
  seq [Chr (ch "<"); star sp; Chr (ch "/"); star sp; liti tag; Chr (ch ">")].
(** [<[^>]*>] *)
Definition any_tag : re := seq [Chr (ch "<"); star (nset (one_of ">")); Chr (ch ">")].

(** Steps 6 to 9; [order] is the order in which the loop of step 6 meets
    the names of [discardElements]. *)
Definition strip_html (order : list str) (text : str) : str :=
  let text := fold_left (fun text tag => sub (discard_re tag) empty text) order text in
  let text := fold_left (fun text tag => sub (selfclosing_re tag) empty text)
                        selfClosingTags text in
  let text := fold_left (fun text tag =>
                           let text := sub (open_tag_re tag) empty text in
                           sub (close_tag_re tag) empty text)
                        ignoredTags text in
  sub any_tag empty text.

(** ['''''([^']*?)'''''], ['''(.*?)'''], and [''], the group [[^']*], [''] *)
Definition bold_italic : re :=
  seq [lit (u "'''''"); Grp 1 (star_lazy (nset (one_of "'"))); lit (u "'''''")].
Definition bold : re := seq [lit (u "'''"); Grp 1 (star_lazy dot); lit (u "'''")].
Definition italic : re :=
  seq [lit (u "''"); Grp 1 (star (nset (one_of "'"))); lit (u "''")].

(** Step 10. *)
Definition emphasis (text : str) : str :=
  let text := sub bold_italic group1 text in
  let text := sub bold group1 text in
  sub italic group1 text.

(** [-zh-[^:]*:[^-]*-], [-\{[^}]*\}-] *)
Definition zh_variant : re :=
  seq [lit (u "-zh-"); star (nset (one_of ":")); Chr (ch ":"); star (nset (one_of "-"));
       Chr (ch "-")].
Definition conversion : re :=
  seq [lit (u "-{"); star (nset (one_of "}")); lit (u "}-")].

(** [\[\d+\]], [ISBN\s*[\d\-X]+], [DOI\s*:?\s*[\d\./]+], [\d{4}\s*reprint\.?] *)
Definition citation : re := seq [Chr (ch "["); plus (set [CD]); Chr (ch "]")].
Definition isbn : re := seq [lit (u "ISBN"); star sp; plus (set (CD :: one_of "-X"))].
Definition doi : re :=
  seq [lit (u "DOI"); star sp; Opt (Chr (ch ":")); star sp; plus (set (CD :: one_of "./"))].
Definition reprint : re :=
  seq [Rep 4 (Some 4) true (set [CD]); star sp; lit (u "reprint"); Opt (Chr (ch "."))].

(** [\b(thumb|thumbnail|right|left|center|frame|frameless|border|upright|\d+px|缩略图|右|左|居中|框架)\b]
    with [re.IGNORECASE] *)
Definition image_words : re :=
  seq [Wb;
       Grp 1 (alt [liti (u "thumb"); liti (u "thumbnail"); liti (u "right");
                   liti (u "left"); liti (u "center"); liti (u "frame");
                   liti (u "frameless"); liti (u "border"); liti (u "upright");
                   Seq (plus (set [CD])) (liti (u "px"));
                   lit (u "缩略图"); lit (u "右"); lit (u "左"); lit (u "居中");
                   lit (u "框架")]);
       Wb].

(** [\([^\)]*=[^\)]*\)] *)
Definition paren_assignment : re :=
  seq [Chr (ch "("); star (nset (one_of ")")); Chr (ch "="); star (nset (one_of ")"));
       Chr (ch ")")].
(** [\b[\w\-\+\*/^]{1,20}\s*=\s*[\w\-\+\*/^]{1,20}\b] *)
Definition token : cset := set (CW :: one_of "-+*/^").
Definition assignment : re :=
  seq [Wb; Rep 1 (Some 20) true token; star sp; Chr (ch "="); star sp;
       Rep 1 (Some 20) true token; Wb].

(** Steps 12 to 15. *)
Definition normalise (text : str) : str :=
  let text := sub zh_variant empty text in
  let text := sub conversion empty text in
  let text := sub citation empty text in
  let text := sub isbn empty text in
  let text := sub doi empty text in
  let text := sub reprint empty text in
  let text := sub image_words empty text in
  let text := sub paren_assignment empty text in
  sub assignment empty text.

(** [[一-鿿]] *)
Definition cjk_re : re := In (set [CR 19968%N 40959%N]).
(** [len(re.findall(r'[一-鿿]', s))] *)
Definition chinese_chars (s : str) : nat := List.length (findall cjk_re s).

(** [=+.*?=+] and [^\s*[*#:;•·]] *)
Definition heading : re :=
  seq [plus (set (one_of "=")); star_lazy dot; plus (set (one_of "="))].
Definition list_item : re := seq [Bol; star sp; In (set (one_of "*#:;•·"))].

Definition is_some {A} (o : option A) : bool :=
  match o with
  | Some _ => true
  | None => false
  end.

(** The body of the loop of step 16 on a stripped line: [true] when the
    line reaches [cleaned_lines.append].  The test
    [chinese_chars < len(line) * 0.3] compares an integer with the double
    nearest to three tenths of the length; for all lengths of a text in
    memory this is the comparison of [10 * chinese_chars] with
    [3 * len(line)]. *)
Definition keep_line (line : str) : bool :=
  match line with
  | [] => false
  | _ =>
      if is_some (match_ heading line) then false
      else if (List.length line <? 200)%nat && (2 <? Py.count (ch "，") line)%nat &&
              negb (existsb (fun c => Py.contains c line) (u "。！？"))
      then false
      else if (List.length line <? 15)%nat then false
      else if (10 * chinese_chars line <? 3 * List.length line)%nat then false
      else if is_some (match_ list_item line) then false
      else true
  end.

(** Steps 16 and 17. *)
Definition filter_lines (text : str) : str :=
  let lines := Py.split 10%N text in
  let cleaned_lines := filter keep_line (map Py.strip lines) in
  Py.join (u " ") cleaned_lines.

(** [\s*([，。！？；：])\s*], [([。！？])\s*([^\s])], [\s+] *)
Definition around_punct : re :=
  seq [star sp; Grp 1 (In (set (one_of "，。！？；："))); star sp].
Definition after_stop : re :=
  seq [Grp 1 (In (set (one_of "。！？"))); star sp; Grp 2 (In (nset [CS]))].
Definition spaces : re := plus sp.
(** [[|{}()（）\[\]<>]], [[，。]{2,}], [^\s*[。，！？；：]\s*] *)
Definition residue : re := In (set (one_of "|{}()（）[]<>")).
Definition stops : re := Rep 2 None true (set (one_of "，。")).
Definition leading_punct : re :=
  seq [Bol; star sp; In (set (one_of "。，！？；：")); star sp].

(** Steps 18 and 19 and the [strip] of step 20. *)
Definition final_cleanup (text : str) : str :=
  let text := sub around_punct group1 text in
  let text := sub after_stop (fun mt => tgroup mt 1 ++ u " " ++ tgroup mt 2) text in
  let text := sub spaces (fun _ => u " ") text in
  let text := sub residue empty text in
  let text := sub stops (fun _ => u "。") text in
  let text := sub leading_punct empty text in
  Py.strip text.

(** The test of step 20.  [len(text) * 0.5] is exact, so the middle test is
    the comparison of [2 * count] with [len(text)]. *)
Definition rejected (text : str) : bool :=
  (List.length text <? 100)%nat
  || (2 * chinese_chars text <? List.length text)%nat
  || (chinese_chars text <? 50)%nat.

Definition quality_check (text : str) : str :=
  if rejected text then [] else text.

(** Steps 2 to 10: comments, templates and tables, links, HTML, emphasis. *)
Definition strip_markup (order : list str) (text : str) : str :=
  let text := sub comment_re empty text in
  let text := dropNested text template_open template_close in
  let text := dropNested text table_open table_close in
  let text := wikilinks text in
  let text := external_links text in
  let text := strip_html order text in
  emphasis text.

(** The text that reaches the final test of [clean_text]. *)
Definition final_text (order : list str) (text : str) : str :=
  let text := early_truncation text in
  let text := strip_markup order text in
  let text := unescape text in
  let text := unescape text in
  let text := normalise text in
  let text := filter_lines text in
  final_cleanup text.

Definition clean_text (order : list str) (text : str) : str :=
  quality_check (final_text order text).

(** The run of a call of [dropNested], and of [clean_text] with its two
    calls of [dropNested]: [None] when a scanning loop has not come to its
    end after one round per character of its text and one more. *)
Definition dropNested_run (text : str) (o c : re) : option str :=
  dropNested_fuel text o c (S (List.length text)).

Definition clean_text_run (order : list str) (text : str) : option str :=
  let text := early_truncation text in
  let text := sub comment_re empty text in
  match dropNested_run text template_open template_close with
  | None => None
  | Some text =>
      match dropNested_run text table_open table_close with
      | None => None
      | Some text =>
          let text := wikilinks text in
          let text := external_links text in
          let text := strip_html order text in
          let text := emphasis text in
          let text := unescape text in
          let text := unescape text in
          let text := normalise text in
          let text := filter_lines text in
          Some (quality_check (final_cleanup text))
      end
  end.

(** [s * n] *)
Definition repeat_str (n : nat) (s : str) : str := List.concat (repeat s n).

(** ** Vocabulary of the statements *)

(** [text.startswith(s)] *)
Fixpoint starts_with (s text : str) : bool :=
  match s, text with
  | [], _ => true
  | c :: s', x :: text' => (c =? x)%N && starts_with s' text'
  | _ :: _, [] => false
  end.

(** The least index at which one of the words [ks] starts in [text]. *)
Fixpoint first_keyword (ks : list str) (text : str) : option nat :=
  if existsb (fun k => starts_with k text) ks then Some 0
  else match text with
       | [] => None
       | _ :: text' => option_map S (first_keyword ks text')
       end.

(** [text.find(s, pos)], with [None] for [-1]. *)
Definition find_str (s text : str) (pos : nat) : option nat :=
  option_map (Nat.add pos) (first_keyword [s] (skipn pos text)).

(** The number of characters of the CJK Unified Ideographs block. *)
Definition cjk_count (text : str) : nat := List.length (filter Py.is_cjk text).

(** The last character of [l], or [d] when [l] is empty. *)
Definition last_char (l : str) (d : option char) : option char :=
  fold_left (fun _ c => Some c) l d.

(** The state [st'] lies some characters [l] further on in the text than
    [st]. *)
Definition reach (st st' : mstate) : Prop :=
  exists l, ms_rest st = l ++ ms_rest st' /\
            ms_pos st' = ms_pos st + List.length l /\
            ms_prev st' = last_char l (ms_prev st).

(** Patterns that match no empty string. *)
Fixpoint nonempty (r : re) : bool :=
  match r with
  | Chr _ | ChrI _ | In _ => true
  | Seq r1 r2 => nonempty r1 || nonempty r2
  | Alt r1 r2 => nonempty r1 && nonempty r2
  | Rep lo _ _ _ => (0 <? lo)%nat
  | Grp _ r1 => nonempty r1
  | Eps | Opt _ | Bol | Wb => false
  end.

(** The part of the text that a piece of a scan stands for. *)
Definition source (p : piece) : str :=
  match p with
  | Lit c => [c]
  | Hit mt => m_text mt
  end.

(** The match of the literal [s] at the index [i]. *)
Definition lit_match (s : str) (i : nat) : rmatch := RM i (i + List.length s) s [].

(** A text that passes the quality check. *)
Definition prose : str := repeat_str 120 (u "中").

(** What [re.sub] with the replacement [f] puts for a piece. *)
Definition expand (f : rmatch -> str) (p : piece) : str :=
  match p with
  | Lit c => [c]
  | Hit mt => f mt
  end.



(** The balanced arrangements of template markers of the length [len]:
    [true] is an open marker, [false] a close marker. *)
Fixpoint arrangements (len opens closes : nat) : list (list bool) :=
  match len with
  | 0 => [[]]
  | S len' =>
      (if (0 <? opens)%nat
       then map (cons true) (arrangements len' (opens - 1) (closes + 1)) else [])
      ++ (if (0 <? closes)%nat
          then map (cons false) (arrangements len' opens (closes - 1)) else [])
  end.

(** The text of an arrangement: before the marker number [i], and at the
    end, stands the letter number [i] when the bit [i] of [mask] is set. *)
Definition letter (i mask : N) : str :=
  if N.testbit mask i then [(97 + i)%N] else [].

Fixpoint render (w : list bool) (i mask : N) : str :=
  match w with
  | [] => letter i mask
  | true :: w' => letter i mask ++ u "{{" ++ render w' (i + 1) mask
  | false :: w' => letter i mask ++ u "}}" ++ render w' (i + 1) mask
  end.

(** The letters of the text of an arrangement that stand outside all pairs
    of markers. *)
Fixpoint outside (w : list bool) (i mask : N) (depth : nat) : str :=
  (if (depth =? 0)%nat then letter i mask else []) ++
  match w with
  | [] => []
  | true :: w' => outside w' (i + 1) mask (S depth)
  | false :: w' => outside w' (i + 1) mask (pred depth)
  end.

Definition masks (n : nat) : list N := map N.of_nat (List.seq 0 (2 ^ n)).

(** [dropNested] leaves the letters outside all pairs, for every balanced
    arrangement of [n] pairs and every choice of the letters. *)
Definition balanced_ok (n : nat) : bool :=
  forallb (fun w =>
    forallb (fun mask =>
      Py.str_eqb (dropNested (render w 0 mask) template_open template_close)
                 (outside w 0 mask 0))
      (masks (2 * n + 1)))
    (arrangements (2 * n) n 0).








(** The keywords of the reference sections as the specification lists
    them, and as [end_sections] has them: the last character of [参考文献] is
    optional in the pattern. *)
Definition listed_keywords : list str := map u
  [ "参见"; "注释"; "参考文献"; "参考书目"; "外部链接"; "延伸阅读"; "相关条目";
    "另见"; "参考资料"; "脚注" ]%string.

Definition end_keywords : list str := map u
  [ "参见"; "注释"; "参考文"; "参考书目"; "外部链接"; "延伸阅读"; "相关条目";
    "另见"; "参考资料"; "脚注" ]%string.

(** A pattern that matches exactly where the text starts with [w]. *)
Definition determined (p : re) (w : str) : Prop :=
  forall st k, (forall st', is_some (k st') = true) ->
    is_some (m p st k) = starts_with w (ms_rest st).

(** The alternatives of [end_sections] with the words that decide them. *)
Definition end_alternatives : list (re * str) :=
  [ (lit (u "参见"), u "参见"); (lit (u "注释"), u "注释");
    (Seq (lit (u "参考文")) (Opt (Chr (ch "献"))), u "参考文");
    (lit (u "参考书目"), u "参考书目"); (lit (u "外部链接"), u "外部链接");
    (lit (u "延伸阅读"), u "延伸阅读"); (lit (u "相关条目"), u "相关条目");
    (lit (u "另见"), u "另见"); (lit (u "参考资料"), u "参考资料");
    (lit (u "脚注"), u "脚注") ].









(** ** Vocabulary of the further properties *)

(** [s] is what is left of [t] after deleting some of its characters. *)
Inductive subseq : str -> str -> Prop :=
| subseq_nil : subseq [] []
| subseq_skip c s t : subseq s t -> subseq s (c :: t)
| subseq_keep c s t : subseq s t -> subseq (c :: s) (c :: t).

(** Spans that follow one another from [lo] on: each starts where the one
    before has ended or later, and ends no earlier than it starts. *)
Fixpoint wf_spans (lo : nat) (spans : list span) : Prop :=
  match spans with
  | [] => True
  | (s, e) :: spans' => lo <= s /\ s <= e /\ wf_spans e spans'
  end.

(** The end of the last span, [lo] when there is none. *)
Definition last_end (lo : nat) (spans : list span) : nat :=
  fold_left (fun _ sp => snd sp) spans lo.

(** A match that lies in the text. *)
Definition valid (text : str) (mt : rmatch) : Prop :=
  m_start mt <= m_end mt /\ m_end mt <= List.length text.
(** What holds of the variables of the loop whenever [end] is a match. *)
Definition loop_inv (text : str) (lo : nat) (start : omatch) (end_ : option rmatch)
  (matches : list span) : Prop :=
  wf_spans lo matches /\
  forall e, end_ = Some e ->
    last_end lo matches <= m_start (snd start) /\
    valid text (snd start) /\ valid text e /\ m_start (snd start) <= m_end e.

(** What a scan knows of its pieces: a match is the result of an attempt,
    and a character left in place is one at which an attempt failed. *)
Definition piece_ok (r : re) (p : piece) : Prop :=
  match p with
  | Lit c => exists adv prev rest pos, match_here r adv prev (c :: rest) pos = None
  | Hit mt => exists adv prev rest pos, match_here r adv prev rest pos = Some mt
  end.

(** The characters that step 19 removes. *)
Definition residual_symbols : str := u "|{}()（）[]<>".

(** A bound [hi] on a number of repetitions. *)
Definition within (hi : option nat) (n : nat) : Prop :=
  match hi with
  | Some h => n <= h
  | None => True
  end.

(** [\b] between the character [prev] and the text [next]. *)
Definition boundary (prev : option char) (next : str) : bool :=
  xorb (word_before (MS prev next 0 [])) (word_after (MS prev next 0 [])).

(** The texts that a pattern matches and the groups that a match records
    (the latest first): [l] after the character [prev] and before the text
    [next]. *)
Fixpoint denotes (r : re) (prev : option char) (l next : str)
  (caps : list (nat * str)) : Prop :=
  match r with
  | Eps => l = [] /\ caps = []
  | Bol => (l = [] /\ prev = None) /\ caps = []
  | Wb => (l = [] /\ boundary prev next = true) /\ caps = []
  | Chr c => l = [c] /\ caps = []
  | ChrI c => (exists x, l = [x] /\ ci_match c x = true) /\ caps = []
  | In cs => (exists x, l = [x] /\ cs_match cs x = true) /\ caps = []
  | Seq r1 r2 =>
      exists l1 l2 c1 c2, l = l1 ++ l2 /\ caps = c2 ++ c1 /\
        denotes r1 prev l1 (l2 ++ next) c1 /\
        denotes r2 (last_char l1 prev) l2 next c2
  | Alt r1 r2 => denotes r1 prev l next caps \/ denotes r2 prev l next caps
  | Opt r1 => denotes r1 prev l next caps \/ (l = [] /\ caps = [])
  | Rep lo hi _ cs =>
      (forallb (cs_match cs) l = true /\ lo <= List.length l /\
       within (option_map (fun h => h - lo) hi) (List.length l - lo)) /\ caps = []
  | Grp i r1 => exists c1, denotes r1 prev l next c1 /\ caps = (i, l) :: c1
  end.

(** The state [st'] lies the characters [l] further on than [st] and has
    recorded the groups [new] on the way. *)
Definition advance (st st' : mstate) (l : str) (new : list (nat * str)) : Prop :=
  ms_rest st = l ++ ms_rest st' /\ ms_pos st' = ms_pos st + List.length l /\
  ms_caps st' = new ++ ms_caps st /\ ms_prev st' = last_char l (ms_prev st).

(** The state after the characters [l] and the groups [new]. *)
Definition after (st : mstate) (l next : str) (new : list (nat * str)) : mstate :=
  MS (last_char l (ms_prev st)) next (ms_pos st + List.length l) (new ++ ms_caps st).

(** A line that starts with [=] and holds one more [=] further on. *)
Definition heading_like (line : str) : Prop :=
  exists b rest, line = ch "=" :: b ++ ch "=" :: rest /\ ~ List.In 10%N b.

(** A line whose first character after leading whitespace is one of the
    list markers. *)
Definition list_like (line : str) : Prop :=
  exists ws c rest, line = ws ++ c :: rest /\ forallb Py.isspace ws = true /\
                    List.In c (u "*#:;•·").

(** A line of less than 200 characters with more than two ideographic
    commas and none of the sentence marks. *)
Definition caption_like (line : str) : Prop :=
  List.length line < 200 /\ 2 < Py.count (ch "，") line /\
  forall c, List.In c (u "。！？") -> ~ List.In c line.

(** *** process_dump

    What [process_dump] reads of the dump: the pages in their order, of a
    page its namespace, its redirect target ([None] when it is no
    redirect), its title, its id and its revisions, of a revision its text
    ([None] when it has none). *)
Record revision := { revision_text : option str }.

Record page := {
  page_namespace : Z;
  page_redirect : option str;
  page_title : str;
  page_id : Z;
  page_revisions : list revision }.

(** The object [obj] of which a line of the output is the JSON text.  The
    source writes [round(chinese_chars / text_length, 3)] for
    ["chinese_ratio"]; the model keeps the two integers of the quotient. *)
Record obj := {
  obj_text : str;
  obj_title : str;
  obj_id : Z;
  obj_length : nat;
  obj_chinese_ratio : nat * nat }.

(** The local variables of [process_dump] and the lines written so far to
    the two files. *)
Record state := {
  sample_count : nat;
  processed_pages : nat;
  valid_articles : nat;
  total_text_length : nat;
  total_chinese_chars : nat;
  text_lengths : list nat;
  chinese_ratios : list (nat * nat);
  out_f : list obj;
  sample_f : list obj }.

Inductive failure := UnicodeEncodeError | ZeroDivisionError.

(** The files are opened with [encoding='utf-8']: [write] raises
    [UnicodeEncodeError] on a line that holds a surrogate code point.
    [json.dumps] with [ensure_ascii=False] leaves the characters of the
    text and of the title as they are. *)
Definition surrogate (c : char) : bool := (55296 <=? c)%N && (c <=? 57343)%N.
Definition encodable (s : str) : bool := forallb (fun c => negb (surrogate c)) s.
Definition writable (o : obj) : bool := encodable (obj_text o) && encodable (obj_title o).

Definition is_nil (s : str) : bool :=
  match s with
  | [] => true
  | _ => false
  end.

(** [max_articles and valid_articles >= max_articles] *)
Definition limit_reached (max_articles : option Z) (valid_articles : nat) : bool :=
  match max_articles with
  | Some n => negb (n =? 0)%Z && (n <=? Z.of_nat valid_articles)%Z
  | None => false
  end.

(** The text of a revision, as the loop reads it: [revision.text or ""]. *)
Definition text_of (rv : revision) : str :=
  match revision_text rv with
  | Some t => t
  | None => []
  end.

Section ProcessDump.

(** The order in which [clean_text] meets [discardElements] in this
    process, and the arguments [sample_size] and [max_articles]. *)
Variable order : list str.
Variable sample_size : Z.
Variable max_articles : option Z.

(** [not cleaned or len(cleaned) < 100] *)
Definition too_short (cleaned : str) : bool :=
  is_nil cleaned || (List.length cleaned <? 100).

(** The body of the loop over the revisions from the statistics on, for a
    text that has passed the test. *)
Definition write_article (pg : page) (cleaned : str) (st : state)
  : state * option failure :=
  let text_length := List.length cleaned in
  let chinese_chars := chinese_chars cleaned in
  let chinese_ratio := if 0 <? text_length then (chinese_chars, text_length) else (0, 1) in
  let st :=
    {| sample_count := sample_count st;
       processed_pages := processed_pages st;
       valid_articles := valid_articles st;
       total_text_length := total_text_length st + text_length;
       total_chinese_chars := total_chinese_chars st + chinese_chars;
       text_lengths := text_lengths st ++ [text_length];
       chinese_ratios := chinese_ratios st ++ [chinese_ratio];
       out_f := out_f st;
       sample_f := sample_f st |} in
  let o :=
    {| obj_text := cleaned;
       obj_title := page_title pg;
       obj_id := page_id pg;
       obj_length := text_length;
       obj_chinese_ratio := chinese_ratio |} in
  if writable o then
    let sampled := (Z.of_nat (sample_count st) <? sample_size)%Z in
    ({| sample_count := if sampled then S (sample_count st) else sample_count st;
        processed_pages := processed_pages st;
        valid_articles := S (valid_articles st);
        total_text_length := total_text_length st;
        total_chinese_chars := total_chinese_chars st;
        text_lengths := text_lengths st;
        chinese_ratios := chinese_ratios st;
        out_f := out_f st ++ [o];
        sample_f := if sampled then sample_f st ++ [o] else sample_f st |}, None)
  else (st, Some UnicodeEncodeError).

(** [for revision in page]: a revision whose cleaned text fails the test
    is passed over, the first one that passes it is written, and the loop
    is left (by one of its two [break]s). *)
Fixpoint revisions_loop (pg : page) (revisions : list revision) (st : state)
  : state * option failure :=
  match revisions with
  | [] => (st, None)
  | revision :: revisions' =>
      let text := text_of revision in
      let cleaned := clean_text order text in
      if too_short cleaned then revisions_loop pg revisions' st
      else write_article pg cleaned st
  end.

Definition count_page (st : state) : state :=
  {| sample_count := sample_count st;
     processed_pages := S (processed_pages st);
     valid_articles := valid_articles st;
     total_text_length := total_text_length st;
     total_chinese_chars := total_chinese_chars st;
     text_lengths := text_lengths st;
     chinese_ratios := chinese_ratios st;
     out_f := out_f st;
     sample_f := sample_f st |}.

(** [page.namespace != 0 or page.redirect] *)
Definition skipped (pg : page) : bool :=
  negb (page_namespace pg =? 0)%Z || truthy (page_redirect pg).

(** [for page in dump]; the progress report of every thousandth page
    changes no variable and writes to neither file. *)
Fixpoint pages_loop (dump : list page) (st : state) : state * option failure :=
  match dump with
  | [] => (st, None)
  | pg :: dump' =>
      let st := count_page st in
      if skipped pg then pages_loop dump' st
      else
        match revisions_loop pg (page_revisions pg) st with
        | (st, Some e) => (st, Some e)
        | (st, None) =>
            if limit_reached max_articles (valid_articles st) then (st, None)
            else pages_loop dump' st
        end
  end.

Definition initial : state :=
  {| sample_count := 0; processed_pages := 0; valid_articles := 0;
     total_text_length := 0; total_chinese_chars := 0;
     text_lengths := []; chinese_ratios := []; out_f := []; sample_f := [] |}.

(** The divisions of the report, in their order: by [processed_pages], by
    [total_time / 60], and, when [valid_articles > 0], by
    [len(text_lengths)], by [len(chinese_ratios)] and by [valid_articles].
    [total_time] is the difference of the two readings of the clock, which
    are given in ticks of the clock. *)
Definition report (st : state) (total_time : Z) : option failure :=
  if processed_pages st =? 0 then Some ZeroDivisionError
  else if (total_time =? 0)%Z then Some ZeroDivisionError
  else if 0 <? valid_articles st then
    if List.length (text_lengths st) =? 0 then Some ZeroDivisionError
    else if List.length (chinese_ratios st) =? 0 then Some ZeroDivisionError
    else if valid_articles st =? 0 then Some ZeroDivisionError
    else None
  else None.

(** [process_dump] on the pages of the dump: the variables and the files
    at its end, and the exception that ends it, if any. *)
Definition process_dump (dump : list page) (start_time end_time : Z)
  : state * option failure :=
  match pages_loop dump initial with
  | (st, Some e) => (st, Some e)
  | (st, None) => (st, report st (end_time - start_time)%Z)
  end.

(** The article that the loop over the revisions of a page would write:
    that of the first revision whose cleaned text passes the test. *)
Fixpoint first_article (pg : page) (revisions : list revision) : option obj :=
  match revisions with
  | [] => None
  | revision :: revisions' =>
      let text := text_of revision in
      let cleaned := clean_text order text in
      if too_short cleaned then first_article pg revisions'
      else
        let text_length := List.length cleaned in
        Some {| obj_text := cleaned;
                obj_title := page_title pg;
                obj_id := page_id pg;
                obj_length := text_length;
                obj_chinese_ratio :=
                  if 0 <? text_length then (chinese_chars cleaned, text_length)
                  else (0, 1) |}
  end.

(** The articles of the pages of the main namespace that are no
    redirects, in the order of the dump. *)
Definition candidates (dump : list page) : list obj :=
  flat_map (fun pg =>
              if skipped pg then []
              else match first_article pg (page_revisions pg) with
                   | Some o => [o]
                   | None => []
                   end) dump.

(** The longest prefix of writable articles. *)
Fixpoint written (l : list obj) : list obj :=
  match l with
  | [] => []
  | o :: l' => if writable o then o :: written l' else []
  end.

(** The first [max_articles] of a list, all of it without a limit. *)
Definition limited (l : list obj) : list obj :=
  match max_articles with
  | Some n => if (n =? 0)%Z then l else firstn (Z.to_nat n) l
  | None => l
  end.

End ProcessDump.

(** The bound that [max_articles] puts on the number of articles. *)
Definition cap (max_articles : option Z) : option nat :=
  match max_articles with
  | Some n => if (n =? 0)%Z then None else Some (Z.to_nat n)
  | None => None
  end.

(** The counters of the two files count their lines, and the sample file
    holds the first [sample_size] lines of the output file. *)
Definition files_ok (sample_size : Z) (st : state) : Prop :=
  valid_articles st = List.length (out_f st) /\
  sample_count st = List.length (sample_f st) /\
  sample_f st = firstn (Z.to_nat sample_size) (out_f st).

(** The statistics are those of the lines of the output file. *)
Definition stats_ok (st : state) : Prop :=
  text_lengths st = map obj_length (out_f st) /\
  chinese_ratios st = map obj_chinese_ratio (out_f st) /\
  total_text_length st = list_sum (map obj_length (out_f st)) /\
  total_chinese_chars st =
    list_sum (map (fun o => cjk_count (obj_text o)) (out_f st)).

(** The first articles of [l] that the bound [b] still allows when [k]
    are written. *)
Definition upto (b : option nat) (k : nat) (l : list obj) : list obj :=
  match b with
  | Some n => firstn (n - k) l
  | None => l
  end.

(** A dump of two pages: an article of 120 ideographs and a redirect. *)
Definition sample_dump : list page :=
  [ {| page_namespace := 0; page_redirect := None; page_title := u "中";
       page_id := 1;
       page_revisions :=
         [ {| revision_text := Some (List.concat (repeat (u "中") 120)) |} ] |};
    {| page_namespace := 0; page_redirect := Some (u "中"); page_title := u "文";
       page_id := 2;
       page_revisions := [ {| revision_text := Some (u "#REDIRECT [[中]]") |} ] |} ].

(** The article of the first page of [sample_dump]. *)
Definition sample_article : obj :=
  {| obj_text := List.concat (repeat (u "中") 120);
     obj_title := u "中";
     obj_id := 1;
     obj_length := 120;
     obj_chinese_ratio := (120, 120) |}.

(** A page whose text ends with a reference to the surrogate U+D800. *)
Definition surrogate_dump : list page :=
  [ {| page_namespace := 0; page_redirect := None; page_title := u "中";
       page_id := 1;
       page_revisions :=
         [ {| revision_text :=
                Some (List.concat (repeat (u "中") 120) ++ u "&#55296;") |} ] |} ].

(** ** The matcher *)

Lemma reach_refl st : reach st st.
Proof. exists []. simpl. repeat split. lia. Qed.

Lemma reach_trans st1 st2 st3 : reach st1 st2 -> reach st2 st3 -> reach st1 st3.
Proof.
  intros (l1 & R1 & P1 & V1) (l2 & R2 & P2 & V2).
  exists (l1 ++ l2). rewrite <- app_assoc, <- R2, R1. split; [reflexivity|].
  rewrite length_app. split; [lia|].
  unfold last_char in *. rewrite fold_left_app, <- V1. exact V2.
Qed.

Lemma reach_pos st st' : reach st st' -> ms_pos st <= ms_pos st'.
Proof. intros (l & _ & P & _). lia. Qed.

Lemma reach_one prev c rest pos caps caps' :
  reach (MS prev (c :: rest) pos caps) (MS (Some c) rest (S pos) caps').
Proof. exists [c]. simpl. repeat split. lia. Qed.

Lemma reach_caps st st' caps' :
  reach st st' -> reach st (MS (ms_prev st') (ms_rest st') (ms_pos st') caps').
Proof. intros (l & R & P & V). exists l. simpl. auto. Qed.

Lemma step_sound p st k a :
  step p st k = Some a ->
  exists c rest', ms_rest st = c :: rest' /\ p c = true /\
    k (MS (Some c) rest' (S (ms_pos st)) (ms_caps st)) = Some a.
Proof.
  unfold step. destruct (ms_rest st) as [|c rest']; [discriminate|].
  destruct (p c) eqn:E; [|discriminate]. intros H. exists c, rest'. auto.
Qed.

Lemma step_reach p st k a :
  step p st k = Some a ->
  exists st', reach st st' /\ ms_pos st < ms_pos st' /\ k st' = Some a.
Proof.
  intros H. apply step_sound in H. destruct H as (c & rest' & R & _ & K).
  eexists. split; [|split; [|exact K]]; simpl; [|lia].
  destruct st as [prev rest pos caps]. simpl in *. subst rest. apply reach_one.
Qed.

Lemma take_n_sound p n : forall st k a,
  take_n p n st k = Some a ->
  exists st', reach st st' /\ ms_pos st' = ms_pos st + n /\ k st' = Some a.
Proof.
  induction n as [|n IH]; intros st k a H; simpl in H.
  - exists st. split; [apply reach_refl|]. split; [lia|exact H].
  - apply step_sound in H. destruct H as (c & rest' & R & _ & K).
    apply IH in K. destruct K as (st' & R' & P' & K').
    exists st'. split; [|split; [simpl in P'; lia|exact K']].
    eapply reach_trans; [|exact R'].
    destruct st as [prev rest pos caps]. simpl in *. subst rest. apply reach_one.
Qed.

Lemma more_greedy_sound p : forall rest hi prev pos caps k a,
  more_greedy p hi prev rest pos caps k = Some a ->
  exists st', reach (MS prev rest pos caps) st' /\ k st' = Some a.
Proof.
  induction rest as [|c rest IH]; intros hi prev pos caps k a H; simpl in H.
  - eexists. split; [apply reach_refl|exact H].
  - destruct (p c && room hi).
    + destruct (more_greedy p (less hi) (Some c) rest (S pos) caps k) eqn:E.
      * inversion H; subst. apply IH in E. destruct E as (st' & R & K).
        exists st'. split; [|exact K]. eapply reach_trans; [apply reach_one|exact R].
      * eexists. split; [apply reach_refl|exact H].
    + eexists. split; [apply reach_refl|exact H].
Qed.

Lemma more_lazy_sound p : forall rest hi prev pos caps k a,
  more_lazy p hi prev rest pos caps k = Some a ->
  exists st', reach (MS prev rest pos caps) st' /\ k st' = Some a.
Proof.
  induction rest as [|c rest IH]; intros hi prev pos caps k a H; simpl in H.
  - destruct (k (MS prev [] pos caps)) eqn:E; [|discriminate].
    inversion H; subst. eexists. split; [apply reach_refl|exact E].
  - destruct (k (MS prev (c :: rest) pos caps)) eqn:E.
    + inversion H; subst. eexists. split; [apply reach_refl|exact E].
    + destruct (p c && room hi); [|discriminate].
      apply IH in H. destruct H as (st' & R & K).
      exists st'. split; [|exact K]. eapply reach_trans; [apply reach_one|exact R].
Qed.

Lemma more_sound g p hi st k a :
  more g p hi st k = Some a -> exists st', reach st st' /\ k st' = Some a.
Proof.
  destruct st as [prev rest pos caps]. unfold more. simpl.
  destruct g; [apply more_greedy_sound|apply more_lazy_sound].
Qed.

(** Whatever [m] returns comes from its continuation, called on a state
    further on in the text (strictly further for a pattern that matches no
    empty string). *)
Lemma m_sound r : forall st k a,
  m r st k = Some a ->
  exists st', reach st st' /\ (nonempty r = true -> ms_pos st < ms_pos st') /\
              k st' = Some a.
Proof.
  induction r as [|c|c|cs|r1 IH1 r2 IH2|r1 IH1 r2 IH2|r1 IH1|lo hi g cs|i r1 IH1| |];
    intros st k a H; simpl in H.
  - exists st. split; [apply reach_refl|]. split; [discriminate|exact H].
  - apply step_reach in H. destruct H as (st' & R & P & K). eauto.
  - apply step_reach in H. destruct H as (st' & R & P & K). eauto.
  - apply step_reach in H. destruct H as (st' & R & P & K). eauto.
  - apply IH1 in H. destruct H as (st1 & R1 & N1 & K1).
    apply IH2 in K1. destruct K1 as (st2 & R2 & N2 & K2).
    exists st2. split; [eapply reach_trans; eauto|]. split; [|exact K2].
    simpl. intros N. apply orb_true_iff in N.
    apply reach_pos in R1. apply reach_pos in R2.
    destruct N as [N|N]; [apply N1 in N|apply N2 in N]; lia.
  - destruct (m r1 st k) eqn:E.
    + inversion H; subst. apply IH1 in E. destruct E as (st' & R & N & K).
      exists st'. split; [exact R|]. split; [|exact K].
      simpl. intros N'. apply andb_true_iff in N'. apply N, N'.
    + apply IH2 in H. destruct H as (st' & R & N & K).
      exists st'. split; [exact R|]. split; [|exact K].
      simpl. intros N'. apply andb_true_iff in N'. apply N, N'.
  - destruct (m r1 st k) eqn:E.
    + inversion H; subst. apply IH1 in E. destruct E as (st' & R & _ & K).
      exists st'. split; [exact R|]. split; [discriminate|exact K].
    + exists st. split; [apply reach_refl|]. split; [discriminate|exact H].
  - apply take_n_sound in H. destruct H as (st1 & R1 & P1 & K1).
    apply more_sound in K1. destruct K1 as (st2 & R2 & K2).
    exists st2. split; [eapply reach_trans; eauto|]. split; [|exact K2].
    simpl. intros N. apply Nat.ltb_lt in N. apply reach_pos in R2. lia.
  - apply IH1 in H. destruct H as (st' & R & N & K).
    exists (set_cap i st st'). split; [apply reach_caps, R|]. split; [|exact K].
    simpl. exact N.
  - destruct (ms_prev st); [discriminate|].
    exists st. split; [apply reach_refl|]. split; [discriminate|exact H].
  - destruct (xorb (word_before st) (word_after st)); [|discriminate].
    exists st. split; [apply reach_refl|]. split; [discriminate|exact H].
Qed.

(** ** Matches, searches and scans *)

Lemma firstn_app_exact (l rest : str) n :
  firstn (n + List.length l - n) (l ++ rest) = l.
Proof.
  replace (n + List.length l - n) with (List.length l + 0) by lia.
  rewrite firstn_app_2. simpl. apply app_nil_r.
Qed.

(** A match at a position covers a prefix [l] of the text from there. *)
Lemma match_here_sound r adv prev rest pos mt :
  match_here r adv prev rest pos = Some mt ->
  exists l rest', rest = l ++ rest' /\ m_start mt = pos /\
    m_end mt = pos + List.length l /\ m_text mt = l /\
    (adv = true -> l <> []) /\ (nonempty r = true -> l <> []).
Proof.
  unfold match_here.
  destruct (m r (MS prev rest pos []) _) as [st'|] eqn:E; [|discriminate].
  intros H. inversion H; subst; clear H. simpl.
  apply m_sound in E. destruct E as (st2 & (l & R & P & _) & N & K).
  simpl in *.
  assert (st2 = st') as ->.
  { destruct (adv && (ms_pos st2 =? pos)); [discriminate|congruence]. }
  exists l, (ms_rest st'). rewrite P. split; [exact R|]. split; [reflexivity|].
  split; [reflexivity|]. split; [rewrite R; apply firstn_app_exact|].
  split.
  - intros ->. simpl in K. intros ->. simpl in P.
    replace (ms_pos st' =? pos) with true in K; [discriminate|].
    symmetry. apply Nat.eqb_eq. lia.
  - intros Hn ->. apply N in Hn. simpl in P. lia.
Qed.

Lemma search_go_sound r : forall rest adv prev pos mt,
  search_go r adv prev rest pos = Some mt ->
  pos <= m_start mt /\ m_start mt <= m_end mt /\
  m_end mt <= pos + List.length rest /\
  (nonempty r = true -> m_start mt < m_end mt).
Proof.
  induction rest as [|c rest IH]; intros adv prev pos mt H; simpl in H.
  - destruct (match_here r adv prev [] pos) eqn:E; [|discriminate].
    inversion H; subst. apply match_here_sound in E.
    destruct E as (l & rest' & R & S & En & _ & _ & N).
    destruct l; [|discriminate]. simpl in *. repeat split; try lia.
    intros Hn. apply N in Hn. congruence.
  - destruct (match_here r adv prev (c :: rest) pos) eqn:E.
    + inversion H; subst. apply match_here_sound in E.
      destruct E as (l & rest' & R & S & En & _ & _ & N).
      assert (List.length (c :: rest) = List.length l + List.length rest')
        by (rewrite R; apply length_app).
      repeat split; try lia.
      intros Hn. apply N in Hn. destruct l; [congruence|simpl in *; lia].
    + apply IH in H. destruct H as (A & B & C & D). simpl.
      repeat split; try lia. exact D.
Qed.

Lemma search_at_sound r text pos mt :
  search_at r text pos = Some mt ->
  Nat.min pos (List.length text) <= m_start mt /\ m_start mt <= m_end mt /\
  m_end mt <= List.length text /\
  (nonempty r = true -> m_start mt < m_end mt).
Proof.
  unfold search_at. intros H. apply search_go_sound in H.
  rewrite length_skipn in H. destruct H as (A & B & C & D).
  repeat split; try lia. exact D.
Qed.

(** The pieces of a scan, put back together, are the text. *)
Lemma scan_source r : forall rest prev pos skip,
  skip <= List.length rest ->
  flat_map source (scan r prev rest pos skip) = skipn skip rest.
Proof.
  induction rest as [|c rest IH]; intros prev pos skip Hs.
  - simpl in Hs. assert (skip = 0) as -> by lia. simpl.
    destruct (match_here r false prev [] pos) eqn:E; [|reflexivity].
    apply match_here_sound in E. destruct E as (l & rest' & R & _ & _ & T & _).
    destruct l; [|discriminate]. simpl. rewrite T. reflexivity.
  - destruct skip as [|n].
    + cbn [scan skipn].
      assert (Hcont : forall mt l rest',
                 c :: rest = l ++ rest' -> l <> [] -> m_text mt = l ->
                 m_end mt = pos + List.length l ->
                 flat_map source
                   (Hit mt :: scan r (Some c) rest (S pos) (m_end mt - pos - 1))
                 = c :: rest).
      { intros mt l rest' R Hl T En. destruct l as [|x l]; [congruence|].
        simpl in R. inversion R; subst x. subst rest.
        cbn [flat_map source]. rewrite T, En. simpl List.length.
        replace (pos + S (List.length l) - pos - 1) with (List.length l) by lia.
        rewrite IH by (rewrite length_app; lia).
        rewrite skipn_app, skipn_all, Nat.sub_diag. reflexivity. }
      destruct (match_here r false prev (c :: rest) pos) as [mt|] eqn:E.
      * apply match_here_sound in E.
        destruct E as (l & rest' & R & _ & En & T & _ & _).
        destruct (m_end mt =? pos) eqn:Ee.
        -- apply Nat.eqb_eq in Ee.
           assert (l = []) as -> by (destruct l; [reflexivity|simpl in *; lia]).
           cbn [flat_map source]. rewrite T. simpl app.
           destruct (match_here r true prev (c :: rest) pos) as [mt'|] eqn:E'.
           ++ apply match_here_sound in E'.
              destruct E' as (l' & rest'' & R' & _ & En' & T' & A' & _).
              eapply Hcont; eauto.
           ++ cbn [flat_map source]. rewrite IH by lia. reflexivity.
        -- apply Nat.eqb_neq in Ee. eapply Hcont; eauto.
           intros ->. simpl in En. lia.
      * cbn [flat_map source]. rewrite IH by lia. reflexivity.
    + cbn [scan skipn]. apply IH. simpl in Hs. lia.
Qed.

Lemma finditer_source r text : flat_map source (finditer r text) = text.
Proof. unfold finditer. rewrite scan_source; [reflexivity|lia]. Qed.

(** [len(re.findall(r'[一-鿿]', s))] counts the characters of the block. *)
Lemma cjk_class c : cs_match (set [CR 19968%N 40959%N]) c = Py.is_cjk c.
Proof. unfold cs_match, set, Py.is_cjk. simpl. rewrite orb_false_r. reflexivity. Qed.

Lemma scan_cjk : forall s prev pos,
  List.length (flat_map (fun p => match p with Lit _ => [] | Hit mt => [mt] end)
                 (scan cjk_re prev s pos 0)) = cjk_count s.
Proof.
  induction s as [|c s IH]; intros prev pos; [reflexivity|].
  unfold cjk_count. cbn [scan filter].
  unfold match_here, cjk_re. cbn [m step ms_rest ms_pos ms_caps].
  rewrite cjk_class. destruct (Py.is_cjk c).
  - cbn [andb m_end ms_pos]. replace (S pos =? pos) with false
      by (symmetry; apply Nat.eqb_neq; lia).
    replace (S pos - pos - 1) with 0 by lia.
    cbn [flat_map app List.length]. f_equal. apply IH.
  - cbn [flat_map app]. apply IH.
Qed.

Lemma chinese_chars_count s : chinese_chars s = cjk_count s.
Proof. apply scan_cjk. Qed.

(** ** The scanning loop of dropNested *)

Section Loop.

Variable text : str.
Variables openRE closeRE : re.
Hypothesis open_nonempty : nonempty openRE = true.

(** Each round moves [next] to a later match of [openRE], so the distance
    from [next.end()] to the end of the text bounds the rounds left. *)
Lemma outer_total : forall n nest start end_ next serial matches,
  List.length text - m_end (snd next) <= n ->
  exists spans, forall fuel, n < fuel ->
    outer text openRE closeRE fuel nest start end_ next serial matches = Some spans.
Proof.
  induction n as [|n IH]; intros nest start end_ next serial matches Hn.
  - destruct end_ as [e|].
    + destruct (search_at openRE text (m_end (snd next))) as [nx|] eqn:E.
      * apply search_at_sound in E. destruct E as (A & B & C & D).
        specialize (D open_nonempty). lia.
      * eexists. intros [|fuel] Hf; [lia|]. simpl. rewrite E. reflexivity.
    + exists matches. intros [|fuel] _; reflexivity.
  - destruct end_ as [e|].
    + destruct (search_at openRE text (m_end (snd next))) as [nx|] eqn:E.
      * pose proof (search_at_sound _ _ _ _ E) as (A & B & C & D).
        specialize (D open_nonempty).
        destruct (inner text closeRE nest start e (serial, nx) matches)
          as [[[nest1 start1] end1] matches1] eqn:Ei.
        destruct (IH (if negb (same (serial, nx) start1) then S nest1 else nest1)
                     start1 end1 (serial, nx) (S serial) matches1) as (spans & Hs).
        { simpl. lia. }
        exists spans. intros [|fuel] Hf; [lia|]. simpl. rewrite E, Ei.
        apply Hs. lia.
      * eexists. intros [|fuel] Hf; [lia|]. simpl. rewrite E. reflexivity.
    + exists matches. intros [|fuel] _; reflexivity.
Qed.

Lemma dropNested_spans_total :
  exists spans, forall extra,
    dropNested_spans text openRE closeRE (S (List.length text) + extra) = Some spans.
Proof.
  unfold dropNested_spans.
  destruct (search_at openRE text 0) as [st|] eqn:E.
  - destruct (outer_total (List.length text) 0 (0, st)
                (search_at closeRE text (m_end st)) (0, st) 1 []) as (spans & Hs).
    { lia. }
    exists spans. intros extra. apply Hs. lia.
  - exists []. reflexivity.
Qed.

End Loop.

Lemma dropNested_fuel_spans text o c fuel :
  dropNested_fuel text o c fuel =
  option_map (fun spans => collect text spans 0) (dropNested_spans text o c fuel).
Proof.
  unfold dropNested_fuel, dropNested_spans.
  destruct (search_at o text 0); [|reflexivity].
  destruct (outer _ _ _ _ _ _ _ _ _ _); reflexivity.
Qed.

Lemma dropNested_total text o c :
  nonempty o = true ->
  exists spans,
    (forall extra, dropNested_spans text o c (S (List.length text) + extra) = Some spans) /\
    dropNested text o c = collect text spans 0.
Proof.
  intros Ho. destruct (dropNested_spans_total text o c Ho) as (spans & Hs).
  exists spans. split; [exact Hs|].
  unfold dropNested. rewrite dropNested_fuel_spans.
  specialize (Hs 0). rewrite Nat.add_0_r in Hs. rewrite Hs. reflexivity.
Qed.

Lemma dropNested_run_total text o c :
  nonempty o = true -> dropNested_run text o c = Some (dropNested text o c).
Proof.
  intros Ho. destruct (dropNested_total text o c Ho) as (spans & Hs & Hd).
  unfold dropNested_run. rewrite dropNested_fuel_spans, Hd.
  specialize (Hs 0). rewrite Nat.add_0_r in Hs. rewrite Hs. reflexivity.
Qed.

(** Without a match of [openRE], and without a match of [closeRE] after the
    first match of [openRE], the text comes back as it is. *)
Lemma dropNested_no_open text o c :
  search_at o text 0 = None -> dropNested text o c = text.
Proof. intros H. unfold dropNested, dropNested_fuel. rewrite H. reflexivity. Qed.

Lemma dropNested_no_close text o c st :
  search_at o text 0 = Some st -> search_at c text (m_end st) = None ->
  dropNested text o c = text.
Proof.
  intros H1 H2. unfold dropNested, dropNested_fuel. rewrite H1, H2. reflexivity.
Qed.

(** ** Literal patterns *)

Lemma starts_with_app : forall s text,
  starts_with s text = true -> text = s ++ skipn (List.length s) text.
Proof.
  induction s as [|c s IH]; intros text H; [reflexivity|].
  destruct text as [|x text]; [discriminate|]. simpl in H.
  apply andb_true_iff in H. destruct H as [E H]. apply N.eqb_eq in E. subst x.
  simpl. f_equal. apply IH, H.
Qed.


(** A literal matches where the text starts with it, and nowhere else. *)
Lemma m_lit : forall s st k,
  m (lit s) st k =
  if starts_with s (ms_rest st)
  then k (MS (last_char s (ms_prev st)) (skipn (List.length s) (ms_rest st))
             (ms_pos st + List.length s) (ms_caps st))
  else None.
Proof.
  induction s as [|c s IH]; intros [prev rest pos caps] k.
  - simpl. rewrite Nat.add_0_r. reflexivity.
  - destruct s as [|c' s'].
    + simpl. unfold step. simpl. destruct rest as [|x rest]; [reflexivity|].
      rewrite andb_true_r. destruct (c =? x)%N eqn:E; [|reflexivity].
      apply N.eqb_eq in E. subst x. rewrite Nat.add_1_r. reflexivity.
    + change (lit (c :: c' :: s')) with (Seq (Chr c) (lit (c' :: s'))).
      cbn [m]. unfold step. cbn [ms_rest ms_pos ms_caps ms_prev].
      destruct rest as [|x rest]; [reflexivity|].
      change (starts_with (c :: c' :: s') (x :: rest))
        with ((c =? x)%N && starts_with (c' :: s') rest).
      destruct (c =? x)%N eqn:E; [|reflexivity].
      apply N.eqb_eq in E. subst x. rewrite IH.
      cbn [ms_rest ms_pos ms_caps ms_prev andb].
      destruct (starts_with (c' :: s') rest); [|reflexivity].
      f_equal. f_equal. cbn [List.length]. lia.
Qed.

Lemma match_here_lit s prev rest pos :
  match_here (lit s) false prev rest pos =
  if starts_with s rest then Some (lit_match s pos) else None.
Proof.
  unfold match_here. rewrite m_lit. cbn [ms_rest ms_pos ms_caps ms_prev andb].
  destruct (starts_with s rest) eqn:E; [|reflexivity].
  cbn [ms_pos ms_caps]. unfold lit_match. f_equal. f_equal.
  pose proof (starts_with_app _ _ E) as R.
  transitivity (firstn (pos + List.length s - pos) (s ++ skipn (List.length s) rest)).
  - rewrite <- R. reflexivity.
  - apply firstn_app_exact.
Qed.

Lemma search_go_lit s : forall rest prev pos,
  search_go (lit s) false prev rest pos =
  option_map (fun i => lit_match s (pos + i)) (first_keyword [s] rest).
Proof.
  induction rest as [|c rest IH]; intros prev pos; cbn [search_go first_keyword];
    rewrite match_here_lit; cbn [existsb]; rewrite orb_false_r;
    destruct (starts_with s _); cbn [option_map];
    try rewrite Nat.add_0_r; try reflexivity.
  rewrite IH. destruct (first_keyword [s] rest); cbn [option_map]; [|reflexivity].
  f_equal. f_equal. lia.
Qed.

(** [re.compile(s).search(text, pos)] for a literal [s] is [text.find(s, pos)]. *)
Lemma search_at_lit s text pos :
  pos <= List.length text ->
  search_at (lit s) text pos = option_map (lit_match s) (find_str s text pos).
Proof.
  intros Hp. unfold search_at, find_str. rewrite Nat.min_l by exact Hp.
  rewrite search_go_lit. destruct (first_keyword [s] (skipn pos text)); reflexivity.
Qed.

Lemma find_str_bound s text pos i :
  pos <= List.length text -> find_str s text pos = Some i ->
  i + List.length s <= List.length text.
Proof.
  intros Hp H.
  assert (Hs : search_at (lit s) text pos = Some (lit_match s i))
    by (rewrite search_at_lit, H; [reflexivity|exact Hp]).
  apply search_at_sound in Hs. simpl in Hs. lia.
Qed.

(** ** The quality gate *)

Lemma rejected_spec text :
  rejected text = false <->
  100 <= List.length text /\ List.length text <= 2 * cjk_count text /\
  50 <= cjk_count text.
Proof.
  unfold rejected. rewrite chinese_chars_count.
  rewrite !orb_false_iff, !Nat.ltb_ge. tauto.
Qed.

(** C1: a text that [clean_text] returns has at least 100 characters, at
    least half of them and at least 50 of them CJK ideographs; and when the
    final text misses one of the three thresholds, [clean_text] returns the
    empty string. *)
Theorem clean_text_thresholds (order : list str) (x : str) :
  (clean_text order x <> [] ->
   clean_text order x = final_text order x /\
   100 <= List.length (clean_text order x) /\
   List.length (clean_text order x) <= 2 * cjk_count (clean_text order x) /\
   50 <= cjk_count (clean_text order x)) /\
  (List.length (final_text order x) < 100 \/
   2 * cjk_count (final_text order x) < List.length (final_text order x) \/
   cjk_count (final_text order x) < 50 ->
   clean_text order x = []).
Proof.
  unfold clean_text, quality_check.
  destruct (rejected (final_text order x)) eqn:E.
  - split; [congruence|reflexivity].
  - apply rejected_spec in E. split; [intros _; tauto|]. lia.
Qed.

Lemma clean_text_thresholds_witness :
  (clean_text discardElements prose = final_text discardElements prose /\
   100 <= List.length (clean_text discardElements prose) /\
   List.length (clean_text discardElements prose)
     <= 2 * cjk_count (clean_text discardElements prose) /\
   50 <= cjk_count (clean_text discardElements prose)) /\
  clean_text discardElements (u "中文") = [].
Proof.
  split.
  - apply (proj1 (clean_text_thresholds discardElements prose)).
    vm_compute. discriminate.
  - apply (proj2 (clean_text_thresholds discardElements (u "中文"))).
    left. vm_compute. lia.
Defined.

(** ** dropNested on the delimiters of clean_text *)

(** C4: when the open marker does not occur in the text, and when no close
    marker occurs after the first open marker, [dropNested] returns the
    text unchanged. *)
Theorem dropNested_unchanged (text om cm : str) :
  (find_str om text 0 = None -> dropNested text (lit om) (lit cm) = text) /\
  (forall i, find_str om text 0 = Some i ->
             find_str cm text (i + List.length om) = None ->
             dropNested text (lit om) (lit cm) = text).
Proof.
  split.
  - intros H. apply dropNested_no_open. rewrite search_at_lit by lia.
    rewrite H. reflexivity.
  - intros i H1 H2. apply dropNested_no_close with (st := lit_match om i).
    + rewrite search_at_lit by lia. rewrite H1. reflexivity.
    + simpl. rewrite search_at_lit.
      * rewrite H2. reflexivity.
      * eapply find_str_bound; [|exact H1]. lia.
Qed.

Lemma dropNested_unchanged_witness :
  dropNested (u "a}}b") (lit (u "{{")) (lit (u "}}")) = u "a}}b" /\
  dropNested (u "a}}b{{c") (lit (u "{{")) (lit (u "}}")) = u "a}}b{{c".
Proof.
  split.
  - apply (proj1 (dropNested_unchanged (u "a}}b") (u "{{") (u "}}"))).
    reflexivity.
  - apply (proj2 (dropNested_unchanged (u "a}}b{{c") (u "{{") (u "}}")) 4);
      reflexivity.
Defined.

(** C9: the scanning loop of [dropNested] comes to its end on every text,
    for the template and for the table delimiters: one round per character
    and one more are enough, more rounds change nothing, and [dropNested]
    returns the text outside the spans found.  The other steps of
    [clean_text] are scans of the text from left to right with no
    exception to raise, so the run of [clean_text] comes to its end on every
    text, with a string. *)
Theorem dropNested_terminates (text : str) :
  (exists spans,
     (forall extra, dropNested_spans text template_open template_close
                      (S (List.length text) + extra) = Some spans) /\
     dropNested text template_open template_close = collect text spans 0) /\
  (exists spans,
     (forall extra, dropNested_spans text table_open table_close
                      (S (List.length text) + extra) = Some spans) /\
     dropNested text table_open table_close = collect text spans 0) /\
  (forall order, clean_text_run order text = Some (clean_text order text)).
Proof.
  split; [|split]; try (apply dropNested_total; reflexivity).
  intros order. unfold clean_text_run.
  rewrite !dropNested_run_total by reflexivity. reflexivity.
Qed.

(** Unbalanced input: the region of the open markers that find no close
    marker is cut at the last close marker seen. *)
Example dropNested_unbalanced :
  dropNested (u "x{{a{{b}}c{{d") template_open template_close = u "xc{{d" /\
  dropNested (u "{{a{{b}}") template_open template_close = [] /\
  dropNested (u "a}}b{{c}}d}}e") template_open template_close = u "a}}bd}}e".
Proof. repeat split; reflexivity. Qed.

(** ** unescape *)



(** References that do not decode: an unknown name, a code point out of
    range, a code point too large for [chr], digits that are none. *)
Example unescape_failures :
  unescape (u "a&foo;b&#1114112;c&#99999999999;d&#12a;e&#x;f&#xg;") =
  u "a&foo;b&#1114112;c&#99999999999;d&#12a;e&#x;f&#xg;".
Proof. reflexivity. Qed.

(** C7: two passes of [unescape] take [&amp;amp;] to [&] where one pass
    stops at [&amp;], and [clean_text] makes exactly these two passes, one
    after the other, between the removal of markup and the
    normalisation. *)
Theorem unescape_twice :
  unescape (unescape (u "&amp;amp;")) = u "&" /\
  unescape (u "&amp;amp;") = u "&amp;" /\
  forall order x,
    final_text order x =
    final_cleanup (filter_lines (normalise
      (unescape (unescape (strip_markup order (early_truncation x)))))).
Proof. repeat split; reflexivity. Qed.

(** ** Links *)


(** The other namespaces of the list, in any case of letters, and a link
    without display text. *)
Example wikilinks_more :
  wikilinks (u "[[FILE:a.png|thumb]][[image:b]][[Media:c]][[北京]]市") = u "北京市".
Proof. vm_compute. reflexivity. Qed.

(** ** Templates *)











Ltac len :=
  repeat match goal with
         | x := _ |- _ => subst x
         end;
  cbv delta [Py.str Py.char]; rewrite ?length_app;
  repeat (progress simpl; rewrite ?length_app); lia.



(** All balanced arrangements of up to four templates, nested or side by
    side, with or without text between the markers. *)
Example dropNested_balanced : forallb balanced_ok [1; 2; 3; 4] = true.
Proof. vm_compute. reflexivity. Qed.

(** ** Character tables *)






(** ** References standing alone *)





Lemma m_seq r1 r2 st k : m (Seq r1 r2) st k = m r1 st (fun st' => m r2 st' k).
Proof. reflexivity. Qed.

Lemma m_grp i r st k : m (Grp i r) st k = m r st (fun st' => k (set_cap i st st')).
Proof. reflexivity. Qed.








(** *** Reading numbers *)













(** ** The cut at the reference sections *)

Lemma m_alt r1 r2 st k :
  m (Alt r1 r2) st k = match m r1 st k with Some a => Some a | None => m r2 st k end.
Proof. reflexivity. Qed.

Lemma determined_lit w : determined (lit w) w.
Proof.
  intros st k Hk. rewrite m_lit. destruct (starts_with w (ms_rest st)); [apply Hk|reflexivity].
Qed.

Lemma determined_lit_opt w r : determined (Seq (lit w) (Opt r)) w.
Proof.
  intros st k Hk. rewrite m_seq, m_lit.
  destruct (starts_with w (ms_rest st)); [|reflexivity].
  cbn [m]. destruct (m r _ k); [reflexivity|apply Hk].
Qed.

Lemma determined_alt : forall ps : list (re * str),
  ps <> [] -> Forall (fun pw => determined (fst pw) (snd pw)) ps ->
  forall st k, (forall st', is_some (k st') = true) ->
    is_some (m (alt (map fst ps)) st k) =
    existsb (fun w => starts_with w (ms_rest st)) (map snd ps).
Proof.
  induction ps as [|[p w] ps IH]; intros Hne Hall st k Hk; [congruence|].
  inversion Hall as [|? ? Hp Hps]; subst. simpl in Hp.
  destruct ps as [|pw ps'].
  - simpl. rewrite orb_false_r. apply Hp, Hk.
  - change (alt (map fst ((p, w) :: pw :: ps')))
      with (Alt p (alt (map fst (pw :: ps')))).
    rewrite m_alt.
    change (existsb (fun w => starts_with w (ms_rest st))
              (map snd ((p, w) :: pw :: ps')))
      with (starts_with w (ms_rest st) ||
            existsb (fun w => starts_with w (ms_rest st)) (map snd (pw :: ps'))).
    rewrite <- (Hp st k Hk), <- (IH ltac:(discriminate) Hps st k Hk).
    destruct (m p st k); reflexivity.
Qed.

Lemma end_alternatives_determined :
  Forall (fun pw => determined (fst pw) (snd pw)) end_alternatives.
Proof.
  unfold end_alternatives.
  repeat match goal with
         | |- Forall _ ((lit ?w, ?w) :: _) =>
             apply Forall_cons; [exact (determined_lit w)|]
         | |- Forall _ ((Seq (lit ?w) (Opt ?r), ?w) :: _) =>
             apply Forall_cons; [exact (determined_lit_opt w r)|]
         end.
  apply Forall_nil.
Qed.

(** [end_sections] matches at a position exactly when one of
    [end_keywords] starts there. *)
Lemma end_sections_here prev rest pos :
  is_some (match_here end_sections false prev rest pos) =
  existsb (fun k => starts_with k rest) end_keywords.
Proof.
  unfold match_here.
  change end_sections with (Grp 1 (alt (map fst end_alternatives))).
  change end_keywords with (map snd end_alternatives).
  rewrite m_grp.
  pose proof (determined_alt end_alternatives ltac:(discriminate)
                end_alternatives_determined (MS prev rest pos [])
                (fun st' => (fun st'0 => if false && (ms_pos st'0 =? pos)
                                         then None else Some st'0)
                              (set_cap 1 (MS prev rest pos []) st'))
                ltac:(reflexivity)) as H.
  cbn [ms_rest] in H. rewrite <- H.
  destruct (m _ _ _); reflexivity.
Qed.

Lemma search_go_end_sections : forall rest prev pos,
  option_map m_start (search_go end_sections false prev rest pos) =
  option_map (Nat.add pos) (first_keyword end_keywords rest).
Proof.
  induction rest as [|c rest IH]; intros prev pos; cbn [search_go first_keyword];
    rewrite <- (end_sections_here prev _ pos);
    destruct (match_here end_sections false prev _ pos) as [mt|] eqn:E;
    cbn [is_some option_map].
  - apply match_here_sound in E. destruct E as (_ & _ & _ & -> & _).
    rewrite Nat.add_0_r. reflexivity.
  - reflexivity.
  - apply match_here_sound in E. destruct E as (_ & _ & _ & -> & _).
    rewrite Nat.add_0_r. reflexivity.
  - rewrite IH. destruct (first_keyword end_keywords rest); cbn [option_map];
      [f_equal; lia|reflexivity].
Qed.

Lemma early_truncation_spec x :
  early_truncation x =
  match first_keyword end_keywords x with
  | Some i => firstn i x
  | None => x
  end.
Proof.
  unfold early_truncation, search, search_at.
  pose proof (search_go_end_sections x None 0) as H.
  change (Nat.min 0 (List.length x)) with 0. cbn [char_before skipn].
  destruct (search_go end_sections false None x 0) as [mt|];
    destruct (first_keyword end_keywords x); cbn [option_map] in H;
    try discriminate; [|reflexivity].
  inversion H. reflexivity.
Qed.

Lemma starts_with_firstn : forall k n t,
  starts_with k (firstn n t) = true -> starts_with k t = true.
Proof.
  induction k as [|c k IH]; intros n t H; [reflexivity|].
  destruct n, t; simpl in H; try discriminate.
  simpl. apply andb_true_iff in H. destruct H as [-> H]. apply (IH _ _ H).
Qed.

Lemma first_keyword_firstn ks :
  existsb (fun k => starts_with k []) ks = false ->
  forall x i, first_keyword ks x = Some i -> first_keyword ks (firstn i x) = None.
Proof.
  intros Hk. induction x as [|c x IH]; intros i H.
  - rewrite firstn_nil. simpl. rewrite Hk. reflexivity.
  - cbn [first_keyword] in H.
    destruct (existsb (fun k => starts_with k (c :: x)) ks) eqn:E.
    + inversion H; subst. simpl. rewrite Hk. reflexivity.
    + destruct (first_keyword ks x) as [j|] eqn:Ej; [|discriminate].
      inversion H; subst. cbn [firstn first_keyword].
      replace (existsb (fun k => starts_with k (c :: firstn j x)) ks) with false.
      * rewrite (IH j eq_refl). reflexivity.
      * symmetry. apply not_true_is_false. intros Ht.
        apply existsb_exists in Ht. destruct Ht as (k & Hin & Hs).
        apply (starts_with_firstn k (S j) (c :: x)) in Hs.
        assert (existsb (fun k => starts_with k (c :: x)) ks = true)
          by (apply existsb_exists; eauto).
        congruence.
Qed.

(** C10, with the keywords of the pattern: [clean_text] first cuts the text at the first
    place where one of [参见], [注释], [参考文], [参考书目], [外部链接],
    [延伸阅读], [相关条目], [另见], [参考资料], [脚注] starts, wherever that
    is; all later steps see the text before that place only, and the result
    is that of the text before that place. *)
Theorem early_truncation_first_keyword (order : list str) (x : str) :
  (forall i, first_keyword end_keywords x = Some i ->
     early_truncation x = firstn i x /\
     clean_text order x = clean_text order (firstn i x)) /\
  (first_keyword end_keywords x = None -> early_truncation x = x).
Proof.
  split.
  - intros i H.
    assert (E1 : early_truncation x = firstn i x)
      by (rewrite early_truncation_spec, H; reflexivity).
    assert (E2 : early_truncation (firstn i x) = firstn i x).
    { rewrite early_truncation_spec.
      rewrite (first_keyword_firstn end_keywords eq_refl x i H). reflexivity. }
    split; [exact E1|]. unfold clean_text, final_text. rewrite E1, E2. reflexivity.
  - intros H. rewrite early_truncation_spec, H. reflexivity.
Qed.

Lemma early_truncation_first_keyword_witness :
  (early_truncation (u "北京是首都，参见上海。") = u "北京是首都，" /\
   clean_text discardElements (u "北京是首都，参见上海。")
   = clean_text discardElements (u "北京是首都，")) /\
  early_truncation (u "北京是首都。") = u "北京是首都。".
Proof.
  split.
  - apply (proj1 (early_truncation_first_keyword discardElements
                    (u "北京是首都，参见上海。")) 6). reflexivity.
  - apply (proj2 (early_truncation_first_keyword discardElements (u "北京是首都。"))).
    reflexivity.
Defined.

(** C10 with the keyword [参考文献] in full does not hold: the text is cut
    at [参考文], which is none of the listed keywords, before the first of
    them. *)
Lemma early_truncation_not_listed :
  first_keyword listed_keywords (u "甲参考文乙脚注丙") = Some 5 /\
  early_truncation (u "甲参考文乙脚注丙") = u "甲" /\
  early_truncation (u "甲参考文乙脚注丙") <> firstn 5 (u "甲参考文乙脚注丙").
Proof. repeat split; vm_compute; try reflexivity; discriminate. Qed.

(** ** Texts of ideographs *)




















(** *** The image words *)











(** *** Lines *)









(** *** The pipeline on a text of ideographs *)










(** ** The spans of dropNested *)

Lemma subseq_refl : forall t, subseq t t.
Proof. induction t; [apply subseq_nil|apply subseq_keep; assumption]. Qed.

Lemma subseq_nil_l : forall t, subseq [] t.
Proof. induction t; [apply subseq_nil|apply subseq_skip; assumption]. Qed.

Lemma subseq_app : forall a s t, subseq s t -> subseq (a ++ s) (a ++ t).
Proof. induction a; intros; simpl; [assumption|apply subseq_keep; auto]. Qed.

Lemma subseq_skipn : forall n t, subseq (skipn n t) t.
Proof.
  induction n as [|n IH]; intros t; [apply subseq_refl|].
  destruct t as [|c t]; [apply subseq_nil|]. simpl. apply subseq_skip, IH.
Qed.

Lemma subseq_trans : forall s t, subseq s t -> forall r, subseq r s -> subseq r t.
Proof.
  induction 1 as [|c s t H IH|c s t H IH]; intros r Hr.
  - exact Hr.
  - apply subseq_skip, IH, Hr.
  - inversion Hr; subst.
    + apply subseq_skip, IH. assumption.
    + apply subseq_keep, IH. assumption.
Qed.


Lemma subseq_skipn_le a b (t : str) : a <= b -> subseq (skipn b t) (skipn a t).
Proof.
  intros H. replace b with ((b - a) + a) by lia. rewrite <- skipn_skipn.
  apply subseq_skipn.
Qed.

Lemma wf_snoc : forall l lo s e,
  wf_spans lo l -> last_end lo l <= s -> s <= e -> wf_spans lo (l ++ [(s, e)]).
Proof.
  unfold last_end. induction l as [|[s0 e0] l IH]; intros lo s e Hw Hl He; simpl in *.
  - auto.
  - destruct Hw as (A & B & C). repeat split; auto.
Qed.

Lemma last_end_snoc l lo s e : last_end lo (l ++ [(s, e)]) = e.
Proof. unfold last_end. rewrite fold_left_app. reflexivity. Qed.

Lemma wf_last : forall l lo, wf_spans lo l -> lo <= last_end lo l.
Proof.
  unfold last_end. induction l as [|[s0 e0] l IH]; intros lo Hw; simpl in *; [lia|].
  destruct Hw as (A & B & C). apply IH in C. lia.
Qed.

Lemma search_valid r text pos mt :
  search_at r text pos = Some mt ->
  valid text mt /\ Nat.min pos (List.length text) <= m_start mt.
Proof.
  intros H. apply search_at_sound in H. unfold valid. tauto.
Qed.

Section Spans.

Variable text : str.
Variables openRE closeRE : re.

Lemma drain_valid : forall nest e,
  valid text e ->
  valid text (drain text closeRE nest e) /\
  m_end e <= m_end (drain text closeRE nest e).
Proof.
  induction nest as [|nest IH]; intros e He; simpl; [split; [exact He|lia]|].
  destruct (search_at closeRE text (m_end e)) as [e0|] eqn:E; [|split; [exact He|lia]].
  apply search_valid in E. destruct E as [V M]. destruct (IH e0 V) as [V' M'].
  split; [exact V'|]. unfold valid in *. lia.
Qed.

Lemma inner_inv lo next : valid text (snd next) ->
  forall nest start e matches nest' start' end' matches',
  loop_inv text lo start (Some e) matches ->
  inner text closeRE nest start e next matches = (nest', start', end', matches') ->
  loop_inv text lo start' end' matches'.
Proof.
  intros Hn. induction nest as [|nest IH];
    intros start e matches nest' start' end' matches' (Hw & Hi) H;
    destruct (Hi e eq_refl) as (Hl & Hs & He & Hse); simpl in H;
    destruct (m_end e <? m_start (snd next)) eqn:Hlt;
    try (inversion H; subst; split; [exact Hw|]; intros e' E; inversion E; subst; auto).
  - apply Nat.ltb_lt in Hlt. inversion H; subst; clear H. split.
    + apply wf_snoc; [exact Hw|exact Hl|exact Hse].
    + intros e' E. apply search_valid in E. destruct E as [V M].
      rewrite last_end_snoc. unfold valid in *. repeat split; lia.
  - destruct (search_at closeRE text (m_end e)) as [e1|] eqn:E.
    + eapply IH; [|exact H].
      apply search_valid in E. destruct E as [V M].
      split; [exact Hw|]. intros e' E'. inversion E'; subst.
      unfold valid in *. repeat split; lia.
    + inversion H; subst; clear H. split; [|discriminate].
      pose proof (wf_last _ _ Hw) as Hlast.
      destruct matches as [|[s0 e0] matches]; simpl in *.
      * unfold last_end in *. simpl in *. unfold valid in *. lia.
      * destruct Hw as (A & B & C). pose proof (wf_last _ _ C) as Hc.
        unfold last_end in *. simpl in *. unfold valid in *. repeat split; try lia.
Qed.

Lemma outer_inv lo : forall fuel nest start end_ next serial matches spans,
  valid text (snd next) ->
  loop_inv text lo start end_ matches ->
  outer text openRE closeRE fuel nest start end_ next serial matches = Some spans ->
  wf_spans lo spans.
Proof.
  induction fuel as [|fuel IH]; intros nest start end_ next serial matches spans Hn Hinv H.
  - destruct end_; [discriminate|]. simpl in H. inversion H; subst. apply Hinv.
  - simpl in H. destruct end_ as [e|]; [|inversion H; subst; apply Hinv].
    destruct Hinv as (Hw & Hi). destruct (Hi e eq_refl) as (Hl & Hs & He & Hse).
    destruct (search_at openRE text (m_end (snd next))) as [nx|] eqn:E.
    + apply search_valid in E. destruct E as [V M].
      destruct (inner text closeRE nest start e (serial, nx) matches)
        as [[[nest1 start1] end1] matches1] eqn:Ei.
      eapply IH; [|eapply (inner_inv lo (serial, nx) V); [|exact Ei]|exact H].
      * exact V.
      * split; assumption.
    + inversion H; subst. apply wf_snoc; [exact Hw|exact Hl|].
      destruct (drain_valid nest e He) as [_ Hd]. lia.
Qed.

Lemma dropNested_spans_wf fuel spans :
  dropNested_spans text openRE closeRE fuel = Some spans ->
  match search_at openRE text 0 with
  | Some st => wf_spans (m_start st) spans
  | None => spans = []
  end.
Proof.
  unfold dropNested_spans. destruct (search_at openRE text 0) as [st|] eqn:E.
  - intros H. apply search_valid in E. destruct E as [V _].
    eapply outer_inv; [| |exact H]; [exact V|].
    split; [exact I|]. intros e Ee. apply search_valid in Ee. destruct Ee as [Ve Me].
    unfold last_end, valid in *. simpl. repeat split; lia.
  - intros H. inversion H. reflexivity.
Qed.

Lemma collect_subseq : forall spans a,
  wf_spans a spans -> subseq (collect text spans a) (skipn a text).
Proof.
  induction spans as [|[s e] spans IH]; intros a Hw; simpl.
  - apply subseq_refl.
  - destruct Hw as (A & B & C). unfold Py.slice.
    rewrite <- (firstn_skipn (s - a) (skipn a text)) at 2.
    apply subseq_app. rewrite skipn_skipn.
    replace (s - a + a) with s by lia.
    eapply subseq_trans; [apply (subseq_skipn_le s e); exact B|]. apply IH, C.
Qed.

Lemma collect_prefix lo spans :
  wf_spans lo spans -> lo <= List.length text ->
  firstn lo (collect text spans 0) = firstn lo text.
Proof.
  intros Hw Hl. destruct spans as [|[s e] spans]; [reflexivity|].
  destruct Hw as (A & B & C). simpl. unfold Py.slice. simpl.
  rewrite Nat.sub_0_r, firstn_app, firstn_firstn, length_firstn.
  replace (lo - Nat.min s (List.length text)) with 0 by lia.
  replace (Nat.min lo s) with lo by lia. simpl. apply app_nil_r.
Qed.

End Spans.

Lemma dropNested_deletes text o c : subseq (dropNested text o c) text.
Proof.
  unfold dropNested. rewrite dropNested_fuel_spans.
  destruct (dropNested_spans text o c (S (List.length text))) as [spans|] eqn:E;
    [|apply subseq_refl].
  apply dropNested_spans_wf in E. simpl.
  destruct (search_at o text 0) as [st|].
  - apply (collect_subseq text spans 0). destruct spans as [|[s e] spans]; [exact I|].
    simpl in *. repeat split; try tauto; lia.
  - subst. apply subseq_refl.
Qed.


(** X2: the text before the first open marker is kept as it is. *)
Theorem dropNested_keeps_prefix (text om cm : str) (i : nat) :
  find_str om text 0 = Some i ->
  firstn i (dropNested text (lit om) (lit cm)) = firstn i text.
Proof.
  intros H.
  assert (Hs : search_at (lit om) text 0 = Some (lit_match om i))
    by (rewrite search_at_lit, H; [reflexivity|lia]).
  unfold dropNested. rewrite dropNested_fuel_spans.
  destruct (dropNested_spans text (lit om) (lit cm) (S (List.length text)))
    as [spans|] eqn:E; [|reflexivity].
  apply dropNested_spans_wf in E. rewrite Hs in E. simpl in *.
  apply collect_prefix with (lo := i); [exact E|].
  apply search_at_sound in Hs. simpl in Hs. lia.
Qed.

Lemma dropNested_keeps_prefix_witness :
  firstn 3 (dropNested (u "ab}{{c}}d{{e") (lit (u "{{")) (lit (u "}}")))
  = firstn 3 (u "ab}{{c}}d{{e").
Proof. apply dropNested_keeps_prefix. reflexivity. Defined.

(** ** The pieces of a scan *)

Lemma scan_pieces r : forall rest prev pos skip,
  Forall (piece_ok r) (scan r prev rest pos skip).
Proof.
  induction rest as [|c rest IH]; intros prev pos skip.
  - destruct skip; simpl; [|constructor].
    destruct (match_here r false prev [] pos) eqn:E; constructor; [|constructor].
    exists false, prev, [], pos. exact E.
  - destruct skip as [|n]; [|apply IH]. cbn [scan].
    destruct (match_here r false prev (c :: rest) pos) as [mt|] eqn:E.
    + assert (Hmt : piece_ok r (Hit mt)) by (exists false, prev, (c :: rest), pos; exact E).
      destruct (m_end mt =? pos).
      * constructor; [exact Hmt|].
        destruct (match_here r true prev (c :: rest) pos) as [mt'|] eqn:E'.
        -- constructor; [|apply IH]. exists true, prev, (c :: rest), pos. exact E'.
        -- constructor; [|apply IH]. exists true, prev, rest, pos. exact E'.
      * constructor; [exact Hmt|apply IH].
    + constructor; [|apply IH]. exists false, prev, rest, pos. exact E.
Qed.

(** A relation between texts that holds piece by piece holds between a
    text and what [re.sub] makes of it. *)
Lemma sub_rel (P : str -> str -> Prop) r repl :
  P [] [] ->
  (forall a b a' b', P a b -> P a' b' -> P (a ++ a') (b ++ b')) ->
  (forall c, piece_ok r (Lit c) -> P [c] [c]) ->
  (forall mt, piece_ok r (Hit mt) -> P (m_text mt) (repl mt)) ->
  forall text, P text (sub r repl text).
Proof.
  intros Hnil Happ Hlit Hhit text.
  assert (H : forall ps, Forall (piece_ok r) ps ->
                         P (flat_map source ps) (flat_map (expand repl) ps)).
  { induction ps as [|p ps IH]; intros Hps; [exact Hnil|].
    inversion Hps; subst. simpl. apply Happ; [|apply IH; assumption].
    destruct p; simpl; [apply Hlit|apply Hhit]; assumption. }
  specialize (H (finditer r text) (scan_pieces r text None 0 0)).
  rewrite finditer_source in H. exact H.
Qed.

(** A property of the characters that the replacements keep is kept. *)
Lemma sub_forall (Q : char -> Prop) r repl :
  (forall mt, piece_ok r (Hit mt) -> Forall Q (m_text mt) -> Forall Q (repl mt)) ->
  forall text, Forall Q text -> Forall Q (sub r repl text).
Proof.
  intros Hhit.
  apply (sub_rel (fun a b => Forall Q a -> Forall Q b)).
  - auto.
  - intros a b a' b' H H' Ha. apply Forall_app in Ha. apply Forall_app.
    split; [apply H|apply H']; tauto.
  - auto.
  - exact Hhit.
Qed.

Lemma sub_empty_forall (Q : char -> Prop) r text :
  Forall Q text -> Forall Q (sub r empty text).
Proof. apply sub_forall. intros; constructor. Qed.

(** ** unescape *)

Lemma fixup_cases mt : fixup mt = m_text mt \/ exists c, fixup mt = [c].
Proof.
  unfold fixup, fixup_try.
  repeat match goal with
         | |- context [Py.bind ?x _] => destruct x; cbn [Py.bind]
         | |- context [if ?x then _ else _] => destruct x
         end; eauto.
Qed.

Lemma m_chr c st k : m (Chr c) st k = step (N.eqb c) st k.
Proof. reflexivity. Qed.

(** A match of the pattern of [unescape] starts with [&] and ends with
    [;]. *)
Lemma entity_hit adv prev rest pos mt :
  match_here entity_re adv prev rest pos = Some mt ->
  exists body, m_text mt = 38%N :: body ++ [59%N].
Proof.
  unfold match_here.
  destruct (m entity_re (MS prev rest pos []) _) as [st'|] eqn:E; [|discriminate].
  intros H. inversion H; subst; clear H. cbn [m_text].
  change entity_re with
    (Seq (Chr 38%N) (Seq (Opt (Chr 35%N))
       (Seq (Grp 1 (Rep 1 None true (set [CW]))) (Chr 59%N)))) in E.
  rewrite m_seq, m_chr in E.
  apply step_sound in E. destruct E as (c & rest1 & R1 & C1 & E).
  cbn [ms_rest ms_pos ms_caps] in *. apply N.eqb_eq in C1. subst c rest.
  rewrite m_seq in E.
  apply (m_sound (Opt (Chr 35%N))) in E. destruct E as (st2 & (l2 & R2 & P2 & _) & _ & E).
  cbn [ms_rest ms_pos] in *.
  rewrite m_seq in E.
  apply (m_sound (Grp 1 (Rep 1 None true (set [CW])))) in E.
  destruct E as (st3 & (l3 & R3 & P3 & _) & _ & E).
  rewrite m_chr in E. apply step_sound in E. destruct E as (c & rest4 & R4 & C4 & E).
  apply N.eqb_eq in C4. subst c.
  cbn [ms_pos ms_rest ms_caps] in E.
  assert (st' = MS (Some 59%N) rest4 (S (ms_pos st3)) (ms_caps st3)) as ->.
  { destruct (adv && _) in E; [discriminate|]. inversion E. reflexivity. }
  cbn [ms_pos]. exists (l2 ++ l3).
  subst rest1. rewrite R3, R4, P3, P2.
  replace (S (S pos + List.length l2 + List.length l3) - pos)
    with (List.length (38%N :: (l2 ++ l3) ++ [59%N]))
    by (cbn [List.length]; rewrite !length_app; cbn [List.length]; lia).
  change (38%N :: l2 ++ l3 ++ 59%N :: rest4)
    with ((38%N :: l2) ++ l3 ++ [59%N] ++ rest4).
  replace ((38%N :: l2) ++ l3 ++ [59%N] ++ rest4)
    with ((38%N :: (l2 ++ l3) ++ [59%N]) ++ rest4)
    by (simpl; rewrite <- !app_assoc; reflexivity).
  rewrite firstn_app, firstn_all, Nat.sub_diag. simpl. rewrite app_nil_r. reflexivity.
Qed.

(** X3: a text without [&], or without [;], holds no reference, and
    [unescape] returns it as it is. *)
Theorem unescape_no_reference (text : str) :
  ~ List.In (ch "&") text \/ ~ List.In (ch ";") text -> unescape text = text.
Proof.
  unfold unescape.
  apply (sub_rel (fun a b => ~ List.In (ch "&") a \/ ~ List.In (ch ";") a -> b = a)).
  - reflexivity.
  - intros a b a' b' H H' Hn. rewrite H, H'; [reflexivity| |];
      destruct Hn as [Hn|Hn]; ((left + right); intros Hi; apply Hn, in_or_app; tauto).
  - reflexivity.
  - intros mt (adv & prev & rest & pos & Hm) Hn.
    apply entity_hit in Hm. destruct Hm as (body & Hm). rewrite Hm in Hn. exfalso.
    destruct Hn as [Hn|Hn]; apply Hn.
    + exact (in_eq _ _).
    + apply in_cons, in_or_app. right. exact (in_eq _ _).
Qed.

Lemma unescape_no_reference_witness :
  unescape (u "a & b") = u "a & b".
Proof.
  apply unescape_no_reference. right. vm_compute.
  intros H. repeat (destruct H as [H|H]; [discriminate|]). exact H.
Defined.

(** X4: [unescape] never makes a text longer: a reference gives one
    character or stays as it is. *)
Theorem unescape_length (text : str) :
  List.length (unescape text) <= List.length text.
Proof.
  unfold unescape.
  apply (sub_rel (fun a b => List.length b <= List.length a)).
  - reflexivity.
  - intros a b a' b' H H'. rewrite !length_app. lia.
  - reflexivity.
  - intros mt (adv & prev & rest & pos & Hm).
    apply entity_hit in Hm. destruct Hm as (body & Hm).
    destruct (fixup_cases mt) as [->|(c & ->)]; [reflexivity|].
    rewrite Hm. simpl. lia.
Qed.

(** ** What the last steps leave in the text *)

Lemma in_miss cs adv prev c rest pos :
  match_here (In cs) adv prev (c :: rest) pos = None -> cs_match cs c = false.
Proof.
  unfold match_here. cbn [m]. unfold step. cbn [ms_rest ms_pos ms_caps].
  destruct (cs_match cs c); [|reflexivity].
  replace (S pos =? pos) with false by (symmetry; apply Nat.eqb_neq; lia).
  rewrite andb_false_r. discriminate.
Qed.

Lemma more_greedy_total p k lo : (forall st, lo <= ms_pos st -> k st <> None) ->
  forall rest hi prev pos caps, lo <= pos ->
  more_greedy p hi prev rest pos caps k <> None.
Proof.
  intros Hk. induction rest as [|c rest IH]; intros hi prev pos caps Hp; simpl.
  - apply Hk. simpl. exact Hp.
  - destruct (p c && room hi).
    + destruct (more_greedy p (less hi) (Some c) rest (S pos) caps k) eqn:E;
        [discriminate|].
      exfalso. revert E. apply IH. lia.
    + apply Hk. simpl. exact Hp.
Qed.

Lemma sp_match c : cs_match sp c = Py.isspace c.
Proof. unfold cs_match, sp, set. simpl. apply orb_false_r. Qed.

(** Where [\s+] finds no match there is no whitespace. *)
Lemma spaces_miss adv prev c rest pos :
  match_here spaces adv prev (c :: rest) pos = None -> Py.isspace c = false.
Proof.
  unfold match_here, spaces, plus. cbn [m take_n]. unfold step.
  cbn [ms_rest ms_pos ms_caps]. rewrite sp_match.
  destruct (Py.isspace c); [|reflexivity].
  unfold more. cbn [ms_rest ms_pos ms_caps ms_prev].
  match goal with
  | |- match ?x with _ => _ end = _ -> _ => destruct x eqn:E; [discriminate|]
  end.
  exfalso. revert E. apply (more_greedy_total _ _ (S pos)); [|lia].
  intros st Hst. replace (ms_pos st =? pos) with false
    by (symmetry; apply Nat.eqb_neq; lia).
  rewrite andb_false_r. discriminate.
Qed.

Lemma drop_while_forall (Q : char -> Prop) p : forall s,
  Forall Q s -> Forall Q (Py.drop_while p s).
Proof.
  induction s as [|c s IH]; intros H; [exact H|]. simpl.
  destruct (p c); [|exact H]. apply IH. inversion H; assumption.
Qed.

Lemma strip_forall (Q : char -> Prop) s : Forall Q s -> Forall Q (Py.strip s).
Proof.
  intros H. unfold Py.strip, Py.rstrip, Py.lstrip.
  apply Forall_rev, drop_while_forall, Forall_rev, drop_while_forall, H.
Qed.

Lemma drop_while_head p : forall s c rest,
  Py.drop_while p s = c :: rest -> p c = false.
Proof.
  induction s as [|x s IH]; intros c rest H; [discriminate|]. simpl in H.
  destruct (p x) eqn:E; [apply (IH _ _ H)|]. inversion H; subst. exact E.
Qed.

Lemma drop_while_split p : forall s,
  exists l, s = l ++ Py.drop_while p s.
Proof.
  induction s as [|x s [l IH]]; [exists []; reflexivity|]. simpl.
  destruct (p x); [|exists []; reflexivity].
  exists (x :: l). simpl. f_equal. exact IH.
Qed.

(** [strip] leaves no whitespace at either end. *)
Lemma strip_ends s :
  (forall c rest, Py.strip s = c :: rest -> Py.isspace c = false) /\
  (forall front c, Py.strip s = front ++ [c] -> Py.isspace c = false).
Proof.
  unfold Py.strip, Py.rstrip, Py.lstrip.
  set (t := Py.drop_while Py.isspace s).
  split.
  - intros c rest H.
    destruct (drop_while_split Py.isspace (rev t)) as [l Hl].
    apply (f_equal (@rev _)) in Hl. rewrite rev_involutive, rev_app_distr in Hl.
    rewrite H in Hl. simpl in Hl.
    apply (drop_while_head Py.isspace s c (rest ++ rev l)). exact Hl.
  - intros front c H. apply (f_equal (@rev _)) in H.
    rewrite rev_involutive, rev_app_distr in H. simpl in H.
    apply (drop_while_head _ _ _ _ H).
Qed.

Lemma quality_check_forall (Q : char -> Prop) s :
  Forall Q s -> Forall Q (quality_check s).
Proof. intros H. unfold quality_check. destruct (rejected s); [constructor|exact H]. Qed.

Lemma one_of_match (l : str) c :
  cs_match (set (map CC l)) c = existsb (N.eqb c) l.
Proof.
  unfold cs_match, set. simpl. induction l as [|x l IH]; [reflexivity|].
  simpl. rewrite IH. reflexivity.
Qed.

(** The steps after [\s+] keep whatever holds of all characters and of
    the full stop. *)
Lemma final_forall (Q : char -> Prop) order x :
  Q (ch "。") ->
  (forall t, Forall Q (sub residue empty (sub spaces (fun _ => u " ") t))) ->
  Forall Q (clean_text order x).
Proof.
  intros Hq H. unfold clean_text, final_text, final_cleanup.
  apply quality_check_forall, strip_forall, sub_empty_forall.
  apply sub_forall; [intros _ _ _; constructor; [exact Hq|constructor]|].
  apply H.
Qed.

Lemma residue_class : one_of "|{}()（）[]<>" = map CC residual_symbols.
Proof. vm_compute. reflexivity. Qed.

Lemma residue_forall t :
  Forall (fun c => existsb (N.eqb c) residual_symbols = false) (sub residue empty t).
Proof.
  apply (sub_rel (fun _ b => Forall (fun c => existsb (N.eqb c) residual_symbols = false) b)).
  - constructor.
  - intros a b a' b' Hb Hb'. apply Forall_app. tauto.
  - intros d (adv & prev & rest & pos & Hm). apply in_miss in Hm.
    constructor; [|constructor].
    rewrite <- (one_of_match residual_symbols d), <- residue_class. exact Hm.
  - intros; constructor.
Qed.

Lemma spaces_forall t :
  Forall (fun c => Py.isspace c = true -> c = ch " ") (sub spaces (fun _ => u " ") t).
Proof.
  apply (sub_rel (fun _ b => Forall (fun c => Py.isspace c = true -> c = ch " ") b)).
  - constructor.
  - intros a b a' b' Hb Hb'. apply Forall_app. tauto.
  - intros d (adv & prev & rest & pos & Hm). apply spaces_miss in Hm.
    constructor; [|constructor]. intros Hd. congruence.
  - intros mt _. constructor; [|constructor]. intros _. reflexivity.
Qed.

(** X5: the text that [clean_text] returns holds none of the characters
    that step 19 removes. *)
Theorem clean_text_no_residual_symbol (order : list str) (x : str) :
  Forall (fun c => ~ List.In c residual_symbols) (clean_text order x).
Proof.
  assert (H : Forall (fun c => existsb (N.eqb c) residual_symbols = false)
                     (clean_text order x)).
  { apply final_forall; [vm_compute; reflexivity|]. intros t. apply residue_forall. }
  revert H. apply Forall_impl. intros c H Hr.
  assert (existsb (N.eqb c) residual_symbols = true); [|congruence].
  apply existsb_exists. exists c. split; [exact Hr|apply N.eqb_refl].
Qed.

(** X6: the only whitespace in the text that [clean_text] returns is the
    plain space, and the text neither starts nor ends with one: it is one
    line, with no tab, line break or wide space. *)
Theorem clean_text_whitespace (order : list str) (x : str) :
  (forall c, List.In c (clean_text order x) -> Py.isspace c = true -> c = ch " ") /\
  (forall c rest, clean_text order x = c :: rest -> Py.isspace c = false) /\
  (forall front c, clean_text order x = front ++ [c] -> Py.isspace c = false).
Proof.
  split.
  - apply (proj1 (Forall_forall (fun c => Py.isspace c = true -> c = ch " ") _)).
    apply final_forall; [intros H; vm_compute in H; discriminate|].
    intros t. apply sub_empty_forall, spaces_forall.
  - unfold clean_text, quality_check.
    destruct (rejected (final_text order x)).
    + split; [discriminate|]. intros [|? ?] ?; discriminate.
    + unfold final_text, final_cleanup. apply strip_ends.
Qed.

(** ** What a match is made of *)

Lemma last_char_app (l1 l2 : str) d :
  last_char (l1 ++ l2) d = last_char l2 (last_char l1 d).
Proof. unfold last_char. apply fold_left_app. Qed.

Lemma advance_after st l next new :
  ms_rest st = l ++ next -> advance st (after st l next new) l new.
Proof. intros H. unfold advance, after. simpl. auto. Qed.

Lemma advance_is st st' l new :
  advance st st' l new -> st' = after st l (ms_rest st') new.
Proof.
  intros (R & P & C & V). destruct st' as [prev' rest' pos' caps'].
  unfold after. simpl in *. subst. reflexivity.
Qed.

Lemma after_nil st : after st [] (ms_rest st) [] = st.
Proof. destruct st. unfold after. simpl. f_equal. lia. Qed.

Lemma after_after st l1 l2 next c1 c2 :
  after (after st l1 (l2 ++ next) c1) l2 next c2 = after st (l1 ++ l2) next (c2 ++ c1).
Proof.
  unfold after. simpl. rewrite last_char_app, length_app, <- app_assoc.
  f_equal. lia.
Qed.

Lemma step_advance p st k a :
  step p st k = Some a ->
  exists st' x, advance st st' [x] [] /\ p x = true /\ k st' = Some a.
Proof.
  intros H. apply step_sound in H. destruct H as (c & rest' & R & C & K).
  eexists. exists c. split; [|split; [exact C|exact K]].
  unfold advance. simpl. repeat split; [exact R|lia].
Qed.

Lemma advance_trans st1 st2 st3 l1 l2 c1 c2 :
  advance st1 st2 l1 c1 -> advance st2 st3 l2 c2 ->
  advance st1 st3 (l1 ++ l2) (c2 ++ c1).
Proof.
  intros (R1 & P1 & C1 & V1) (R2 & P2 & C2 & V2). unfold advance.
  rewrite R1, R2, P2, P1, C2, C1, V2, V1, length_app, last_char_app, <- !app_assoc.
  repeat split. lia.
Qed.

Lemma advance_refl st : advance st st [] [].
Proof. unfold advance. simpl. repeat split. lia. Qed.

Lemma advance_cons prev c rest pos caps st' l new :
  advance (MS (Some c) rest (S pos) caps) st' l new ->
  advance (MS prev (c :: rest) pos caps) st' (c :: l) new.
Proof.
  intros (R & P & C & V). unfold advance in *. simpl in *.
  rewrite R, P, C, V. repeat split. lia.
Qed.

Lemma take_n_advance p n : forall st k a,
  take_n p n st k = Some a ->
  exists st' l, advance st st' l [] /\ forallb p l = true /\ List.length l = n /\
                k st' = Some a.
Proof.
  induction n as [|n IH]; intros st k a H; simpl in H.
  - exists st, []. split; [apply advance_refl|]. auto.
  - apply step_advance in H. destruct H as (st1 & x & A1 & Px & K).
    apply IH in K. destruct K as (st2 & l & A2 & Pl & Ll & K).
    exists st2, ([x] ++ l). split; [apply (advance_trans _ _ _ _ _ _ _ A1 A2)|].
    simpl. rewrite Px, Pl, Ll. auto.
Qed.

Lemma within_less hi n : room hi = true -> within (less hi) n -> within hi (S n).
Proof. destruct hi as [[|h]|]; simpl; try discriminate; intros; lia. Qed.

Lemma within_room hi n : within hi (S n) -> room hi = true /\ within (less hi) n.
Proof. destruct hi as [[|h]|]; simpl; intros; split; try reflexivity; lia. Qed.

Lemma within_zero hi : within hi 0.
Proof. destruct hi; simpl; [lia|exact I]. Qed.

Lemma more_greedy_advance p : forall rest hi prev pos caps k a,
  more_greedy p hi prev rest pos caps k = Some a ->
  exists st' l, advance (MS prev rest pos caps) st' l [] /\ forallb p l = true /\
                within hi (List.length l) /\ k st' = Some a.
Proof.
  induction rest as [|c rest IH]; intros hi prev pos caps k a H; simpl in H.
  - eexists. exists []. split; [apply advance_refl|]. auto using within_zero.
  - destruct (p c && room hi) eqn:Hc.
    + destruct (more_greedy p (less hi) (Some c) rest (S pos) caps k) eqn:E.
      * inversion H; subst. apply IH in E.
        destruct E as (st' & l & A & Pl & W & K).
        exists st', (c :: l). apply andb_true_iff in Hc. destruct Hc as [Hc Hr].
        split; [apply advance_cons, A|]. simpl. rewrite Hc, Pl.
        auto using within_less.
      * eexists. exists []. split; [apply advance_refl|]. auto using within_zero.
    + eexists. exists []. split; [apply advance_refl|]. auto using within_zero.
Qed.

Lemma more_lazy_advance p : forall rest hi prev pos caps k a,
  more_lazy p hi prev rest pos caps k = Some a ->
  exists st' l, advance (MS prev rest pos caps) st' l [] /\ forallb p l = true /\
                within hi (List.length l) /\ k st' = Some a.
Proof.
  induction rest as [|c rest IH]; intros hi prev pos caps k a H; simpl in H.
  - destruct (k (MS prev [] pos caps)) eqn:E; [|discriminate].
    inversion H; subst. eexists. exists []. split; [apply advance_refl|].
    auto using within_zero.
  - destruct (k (MS prev (c :: rest) pos caps)) eqn:E.
    + inversion H; subst. eexists. exists []. split; [apply advance_refl|].
      auto using within_zero.
    + destruct (p c && room hi) eqn:Hc; [|discriminate].
      apply IH in H. destruct H as (st' & l & A & Pl & W & K).
      exists st', (c :: l). apply andb_true_iff in Hc. destruct Hc as [Hc Hr].
      split; [apply advance_cons, A|]. simpl. rewrite Hc, Pl.
      auto using within_less.
Qed.

Lemma more_advance g p hi st k a :
  more g p hi st k = Some a ->
  exists st' l, advance st st' l [] /\ forallb p l = true /\
                within hi (List.length l) /\ k st' = Some a.
Proof.
  destruct st as [prev rest pos caps]. unfold more. simpl.
  destruct g; [apply more_greedy_advance|apply more_lazy_advance].
Qed.

Lemma boundary_state st :
  xorb (word_before st) (word_after st) = boundary (ms_prev st) (ms_rest st).
Proof. reflexivity. Qed.

(** Whatever [m] returns comes from its continuation, called after a text
    that the pattern denotes. *)
Lemma m_denotes r : forall st k a,
  m r st k = Some a ->
  exists st' l new, advance st st' l new /\
    denotes r (ms_prev st) l (ms_rest st') new /\ k st' = Some a.
Proof.
  induction r as [|c|c|cs|r1 IH1 r2 IH2|r1 IH1 r2 IH2|r1 IH1|lo hi g cs|i r1 IH1| |];
    intros st k a H; simpl in H.
  - exists st, [], []. split; [apply advance_refl|]. simpl. auto.
  - apply step_advance in H. destruct H as (st' & x & A & Px & K).
    apply N.eqb_eq in Px. subst x. exists st', [c], []. simpl. auto.
  - apply step_advance in H. destruct H as (st' & x & A & Px & K).
    exists st', [x], []. simpl. eauto 6.
  - apply step_advance in H. destruct H as (st' & x & A & Px & K).
    exists st', [x], []. simpl. eauto 6.
  - apply IH1 in H. destruct H as (st1 & l1 & c1 & A1 & D1 & K1).
    apply IH2 in K1. destruct K1 as (st2 & l2 & c2 & A2 & D2 & K2).
    exists st2, (l1 ++ l2), (c2 ++ c1).
    split; [apply (advance_trans _ _ _ _ _ _ _ A1 A2)|]. split; [|exact K2].
    simpl. exists l1, l2, c1, c2.
    destruct A1 as (R1 & _ & _ & V1). destruct A2 as (R2 & _ & _ & _).
    rewrite <- R2, <- V1. auto.
  - destruct (m r1 st k) eqn:E.
    + inversion H; subst. apply IH1 in E. destruct E as (st' & l & new & A & D & K).
      exists st', l, new. simpl. auto.
    + apply IH2 in H. destruct H as (st' & l & new & A & D & K).
      exists st', l, new. simpl. auto.
  - destruct (m r1 st k) eqn:E.
    + inversion H; subst. apply IH1 in E. destruct E as (st' & l & new & A & D & K).
      exists st', l, new. simpl. auto.
    + exists st, [], []. split; [apply advance_refl|]. simpl. auto.
  - apply take_n_advance in H. destruct H as (st1 & l1 & A1 & P1 & L1 & K1).
    apply more_advance in K1. destruct K1 as (st2 & l2 & A2 & P2 & W2 & K2).
    exists st2, (l1 ++ l2), ([] ++ []).
    split; [apply (advance_trans _ _ _ _ _ _ _ A1 A2)|]. split; [|exact K2].
    simpl. rewrite forallb_app, P1, P2, length_app, L1.
    replace (lo + List.length l2 - lo) with (List.length l2) by lia.
    repeat split; [lia|exact W2].
  - apply IH1 in H. destruct H as (st' & l & new & (R & P & C & V) & D & K).
    exists (set_cap i st st'), l, ((i, l) :: new). split; [|split; [|exact K]].
    + unfold advance, set_cap. cbn [ms_rest ms_pos ms_caps ms_prev]. rewrite C, P, R.
      replace (ms_pos st + List.length l - ms_pos st) with (List.length l) by lia.
      rewrite firstn_app, firstn_all, Nat.sub_diag. simpl. rewrite app_nil_r. auto.
    + simpl. exists new. auto.
  - destruct (ms_prev st) eqn:Ep; [discriminate|].
    exists st, [], []. split; [apply advance_refl|]. simpl. auto.
  - rewrite boundary_state in H.
    destruct (boundary (ms_prev st) (ms_rest st)) eqn:Eb; [|discriminate].
    exists st, [], []. split; [apply advance_refl|]. simpl. auto.
Qed.

Lemma take_n_complete p : forall l st k next,
  forallb p l = true -> ms_rest st = l ++ next ->
  k (after st l next []) <> None -> take_n p (List.length l) st k <> None.
Proof.
  induction l as [|c l IH]; intros st k next Hp R K.
  - simpl in *. subst next. rewrite after_nil in K. exact K.
  - simpl in Hp. apply andb_true_iff in Hp. destruct Hp as [Hc Hp].
    destruct st as [prev rest pos caps]. simpl in R. subst rest.
    simpl. unfold step. simpl. rewrite Hc.
    apply (IH (MS (Some c) (l ++ next) (S pos) caps) k next Hp eq_refl).
    unfold after in *. simpl in *.
    replace (S (pos + List.length l)) with (pos + S (List.length l)) by lia.
    exact K.
Qed.

Lemma more_greedy_complete p k : forall l hi prev next pos caps,
  forallb p l = true -> within hi (List.length l) ->
  k (MS (last_char l prev) next (pos + List.length l) caps) <> None ->
  more_greedy p hi prev (l ++ next) pos caps k <> None.
Proof.
  induction l as [|c l IH]; intros hi prev next pos caps Hp W K.
  - simpl in *. rewrite Nat.add_0_r in K.
    destruct next as [|d next]; simpl; [exact K|].
    destruct (p d && room hi); [|exact K].
    destruct (more_greedy p (less hi) (Some d) next (S pos) caps k);
      [discriminate|exact K].
  - simpl in Hp. apply andb_true_iff in Hp. destruct Hp as [Hc Hp].
    simpl in W. apply within_room in W. destruct W as [Hr W].
    simpl. rewrite Hc, Hr. simpl.
    destruct (more_greedy p (less hi) (Some c) (l ++ next) (S pos) caps k) eqn:E;
      [discriminate|].
    exfalso. revert E. apply IH; [exact Hp|exact W|].
    simpl in K. replace (S pos + List.length l) with (pos + S (List.length l)) by lia.
    exact K.
Qed.

Lemma more_lazy_complete p k : forall l hi prev next pos caps,
  forallb p l = true -> within hi (List.length l) ->
  k (MS (last_char l prev) next (pos + List.length l) caps) <> None ->
  more_lazy p hi prev (l ++ next) pos caps k <> None.
Proof.
  induction l as [|c l IH]; intros hi prev next pos caps Hp W K.
  - simpl in *. rewrite Nat.add_0_r in K.
    destruct next as [|d next]; simpl;
      destruct (k (MS prev _ pos caps)); try discriminate; congruence.
  - simpl in Hp. apply andb_true_iff in Hp. destruct Hp as [Hc Hp].
    simpl in W. apply within_room in W. destruct W as [Hr W].
    simpl. destruct (k (MS prev (c :: l ++ next) pos caps)); [discriminate|].
    rewrite Hc, Hr. simpl.
    apply IH; [exact Hp|exact W|].
    simpl in K. replace (S pos + List.length l) with (pos + S (List.length l)) by lia.
    exact K.
Qed.

(** [m] finds a match whenever there is one: if the text goes on with a
    text [l] that the pattern denotes and the continuation accepts the
    state after [l], then [m] returns a result. *)
Lemma m_complete r : forall st k l next new,
  ms_rest st = l ++ next ->
  denotes r (ms_prev st) l next new ->
  k (after st l next new) <> None ->
  m r st k <> None.
Proof.
  induction r as [|c|c|cs|r1 IH1 r2 IH2|r1 IH1 r2 IH2|r1 IH1|lo hi g cs|i r1 IH1| |];
    intros st k l next new R D K; simpl in D.
  - destruct D as [-> ->]. simpl in R. subst next. rewrite after_nil in K. exact K.
  - destruct D as [-> ->]. simpl. unfold step. rewrite R. simpl.
    rewrite N.eqb_refl. unfold after in K. simpl in K.
    rewrite Nat.add_1_r in K. exact K.
  - destruct D as [(x & -> & Hx) ->]. simpl. unfold step. rewrite R. simpl.
    rewrite Hx. unfold after in K. simpl in K.
    rewrite Nat.add_1_r in K. exact K.
  - destruct D as [(x & -> & Hx) ->]. simpl. unfold step. rewrite R. simpl.
    rewrite Hx. unfold after in K. simpl in K.
    rewrite Nat.add_1_r in K. exact K.
  - destruct D as (l1 & l2 & c1 & c2 & -> & -> & D1 & D2).
    rewrite <- app_assoc in R. simpl.
    apply (IH1 st _ l1 (l2 ++ next) c1 R D1).
    apply (IH2 _ k l2 next c2); [reflexivity|exact D2|].
    rewrite after_after. exact K.
  - simpl. destruct (m r1 st k) eqn:E; [discriminate|].
    destruct D as [D|D]; [exfalso; revert E; apply (IH1 st k l next new R D K)|].
    apply (IH2 st k l next new R D K).
  - simpl. destruct (m r1 st k) eqn:E; [discriminate|].
    destruct D as [D|[-> ->]];
      [exfalso; revert E; apply (IH1 st k l next new R D K)|].
    simpl in R. subst next. rewrite after_nil in K. exact K.
  - destruct D as [(Hp & Hlo & W) ->]. simpl.
    rewrite <- (firstn_skipn lo l) in R, Hp, K.
    rewrite forallb_app in Hp. apply andb_true_iff in Hp. destruct Hp as [Hp1 Hp2].
    rewrite <- app_assoc in R.
    assert (Hl : List.length (firstn lo l) = lo) by (rewrite length_firstn; lia).
    rewrite <- Hl at 1.
    apply (take_n_complete _ _ _ _ (skipn lo l ++ next) Hp1 R).
    unfold more, after. cbn [ms_prev ms_rest ms_pos ms_caps app].
    destruct g; [apply more_greedy_complete|apply more_lazy_complete];
      try exact Hp2; try (rewrite length_skipn; exact W);
      unfold after in K; simpl in K;
      rewrite last_char_app, length_app, Nat.add_assoc in K; exact K.
  - destruct D as (c1 & D & ->). simpl.
    apply (IH1 st _ l next c1 R D).
    unfold set_cap, after in *. cbn [ms_prev ms_rest ms_pos ms_caps] in *.
    replace (ms_pos st + List.length l - ms_pos st) with (List.length l) by lia.
    rewrite R, firstn_app, firstn_all, Nat.sub_diag. simpl. rewrite app_nil_r.
    exact K.
  - destruct D as [[-> Hv] ->]. simpl. rewrite Hv.
    simpl in R. subst next. rewrite after_nil in K. exact K.
  - destruct D as [[-> Hb] ->]. simpl in R. subst next. simpl.
    rewrite boundary_state, Hb. rewrite after_nil in K. exact K.
Qed.

(** The text and the groups of a match are what the pattern denotes. *)
Lemma match_here_denotes r adv prev rest pos mt :
  match_here r adv prev rest pos = Some mt ->
  exists next, rest = m_text mt ++ next /\
    denotes r prev (m_text mt) next (m_groups mt).
Proof.
  unfold match_here.
  destruct (m r (MS prev rest pos []) _) as [st'|] eqn:E; [|discriminate].
  intros H. inversion H; subst; clear H. simpl.
  apply m_denotes in E. destruct E as (st2 & l & new & (R & P & C & V) & D & K).
  simpl in *.
  assert (st2 = st') as ->.
  { destruct (adv && (ms_pos st2 =? pos)); [discriminate|congruence]. }
  exists (ms_rest st'). rewrite P, R, C, app_nil_r.
  replace (pos + List.length l - pos) with (List.length l) by lia.
  rewrite firstn_app, firstn_all, Nat.sub_diag. simpl. rewrite app_nil_r.
  split; [reflexivity|exact D].
Qed.

(** There is a match wherever the text goes on with a text that the
    pattern denotes. *)
Lemma match_here_complete r adv prev l next pos caps :
  denotes r prev l next caps -> (adv = true -> l <> []) ->
  match_here r adv prev (l ++ next) pos <> None.
Proof.
  intros D Hadv. unfold match_here.
  match goal with
  | |- match ?x with _ => _ end <> None => destruct x eqn:E; [discriminate|]
  end.
  exfalso. revert E. apply (m_complete r _ _ l next caps); [reflexivity|exact D|].
  unfold after. cbn [ms_pos].
  destruct adv; [|discriminate]. simpl.
  replace (pos + List.length l =? pos) with false; [discriminate|].
  symmetry. apply Nat.eqb_neq. specialize (Hadv eq_refl).
  destruct l; [congruence|simpl; lia].
Qed.

Lemma hit_denotes r mt :
  piece_ok r (Hit mt) -> exists prev next, denotes r prev (m_text mt) next (m_groups mt).
Proof.
  intros (adv & prev & rest & pos & H).
  destruct (match_here_denotes _ _ _ _ _ _ H) as (next & _ & D). eauto.
Qed.

(** Every group of a match is a part of its text. *)
Lemma denotes_part r : forall prev l next caps i s,
  denotes r prev l next caps -> List.In (i, s) caps -> exists a b, l = a ++ s ++ b.
Proof.
  induction r as [|c|c|cs|r1 IH1 r2 IH2|r1 IH1 r2 IH2|r1 IH1|lo hi g cs|j r1 IH1| |];
    intros prev l next caps i s D Hin; simpl in D;
    try (destruct D as [_ ->]; destruct Hin).
  - destruct D as (l1 & l2 & c1 & c2 & -> & -> & D1 & D2).
    apply in_app_or in Hin. destruct Hin as [Hin|Hin].
    + destruct (IH2 _ _ _ _ _ _ D2 Hin) as (a & b & ->).
      exists (l1 ++ a), b. rewrite <- !app_assoc. reflexivity.
    + destruct (IH1 _ _ _ _ _ _ D1 Hin) as (a & b & ->).
      exists a, (b ++ l2). rewrite <- !app_assoc. reflexivity.
  - destruct D as [D|D]; [apply (IH1 _ _ _ _ _ _ D Hin)|apply (IH2 _ _ _ _ _ _ D Hin)].
  - destruct D as [D|[_ ->]]; [apply (IH1 _ _ _ _ _ _ D Hin)|destruct Hin].
  - destruct D as (c1 & D & ->). destruct Hin as [Hin|Hin].
    + inversion Hin; subst. exists [], []. rewrite app_nil_r. reflexivity.
    + apply (IH1 _ _ _ _ _ _ D Hin).
Qed.

Lemma assoc_in i : forall caps s, assoc i caps = Some s -> List.In (i, s) caps.
Proof.
  induction caps as [|[j x] caps IH]; intros s H; [discriminate|]. simpl in H.
  destruct (i =? j) eqn:E.
  - apply Nat.eqb_eq in E. inversion H; subst. left. reflexivity.
  - right. apply IH, H.
Qed.

Lemma subseq_app2 : forall s t, subseq s t ->
  forall s' t', subseq s' t' -> subseq (s ++ s') (t ++ t').
Proof.
  induction 1; intros s' t' H'; simpl;
    [exact H'|apply subseq_skip; auto|apply subseq_keep; auto].
Qed.

Lemma subseq_part (a s b : str) : subseq s (a ++ s ++ b).
Proof.
  apply (subseq_app2 [] a (subseq_nil_l a) s (s ++ b)).
  rewrite <- (app_nil_r s) at 1. apply subseq_app2; [apply subseq_refl|apply subseq_nil_l].
Qed.

(** A group of a match, put for the match, only deletes. *)
Lemma tgroup_deletes r mt i :
  piece_ok r (Hit mt) -> subseq (tgroup mt i) (m_text mt).
Proof.
  intros H. apply hit_denotes in H. destruct H as (prev & next & H).
  unfold tgroup, group.
  destruct (assoc i (m_groups mt)) as [s|] eqn:E; [|apply subseq_nil_l].
  apply assoc_in in E. destruct (denotes_part _ _ _ _ _ _ _ H E) as (a & b & ->).
  apply subseq_part.
Qed.

(** A substitution whose replacements only delete only deletes. *)
Lemma sub_deletes r repl :
  (forall mt, piece_ok r (Hit mt) -> subseq (repl mt) (m_text mt)) ->
  forall t, subseq (sub r repl t) t.
Proof.
  intros H. apply (sub_rel (fun a b => subseq b a)).
  - apply subseq_nil.
  - intros a b a' b' Hb Hb'. apply subseq_app2; assumption.
  - intros. apply subseq_refl.
  - exact H.
Qed.

Lemma sub_empty_deletes r t : subseq (sub r empty t) t.
Proof. apply sub_deletes. intros. apply subseq_nil_l. Qed.

Lemma sub_group1_deletes r t : subseq (sub r group1 t) t.
Proof. apply sub_deletes. intros mt H. apply (tgroup_deletes r mt 1 H). Qed.

Lemma fold_deletes (f : str -> str -> str) :
  (forall t tag, subseq (f t tag) t) ->
  forall tags t, subseq (fold_left f tags t) t.
Proof.
  intros H. induction tags as [|tag tags IH]; intros t; [apply subseq_refl|].
  simpl. eapply subseq_trans; [apply H|apply IH].
Qed.

Lemma denotes_lit : forall s prev l next caps,
  denotes (lit s) prev l next caps -> l = s /\ caps = [].
Proof.
  induction s as [|c s IH]; intros prev l next caps D; [exact D|].
  destruct s as [|d s]; [exact D|].
  change (lit (c :: d :: s)) with (Seq (Chr c) (lit (d :: s))) in D.
  simpl in D. destruct D as (l1 & l2 & c1 & c2 & -> & -> & [-> ->] & D2).
  apply IH in D2. destruct D2 as [-> ->]. auto.
Qed.

Lemma denotes_rep lo hi g cs prev l next caps :
  denotes (Rep lo hi g cs) prev l next caps -> caps = [].
Proof. simpl. tauto. Qed.

Lemma subseq_drop (a s t : str) : subseq s t -> subseq s (a ++ t).
Proof. intros H. apply (subseq_app2 [] a (subseq_nil_l a) s t H). Qed.

(** The text put for an internal link is made of characters of the link,
    in their order. *)
Lemma process_wikilink_deletes mt :
  piece_ok wikiLink (Hit mt) -> subseq (process_wikilink mt) (m_text mt).
Proof.
  intros H. apply hit_denotes in H. destruct H as (prev & next & H).
  unfold process_wikilink.
  match goal with
  | |- subseq (if ?b then _ else _) _ => destruct b; [apply subseq_nil_l|]
  end.
  unfold tgroup, group. destruct mt as [s e l caps]. cbn [m_groups m_text] in *.
  unfold wikiLink in H. cbn [seq] in H.
  destruct H as (l0 & la & c0 & ca & -> & -> & D0 & H).
  apply denotes_lit in D0. destruct D0 as [-> ->].
  destruct H as (l1 & lb & c1 & cb & -> & -> & D1 & H).
  destruct D1 as (c1' & D1 & ->). apply denotes_rep in D1. subst c1'.
  destruct H as (l2 & lc & c2 & cc & -> & -> & D2 & H).
  destruct H as (l3 & l4 & c3 & c4 & -> & -> & D3 & D4).
  apply denotes_lit in D3. destruct D3 as [-> ->].
  destruct D4 as (c4' & D4 & ->). apply denotes_rep in D4. subst c4'.
  assert (Ht : subseq (if truthy (Some l4) then l4 else []) l4)
    by (destruct (truthy (Some l4)); [apply subseq_refl|apply subseq_nil_l]).
  destruct D2 as [D2|[-> ->]].
  - destruct D2 as (x & y & cx & cy & -> & -> & [-> ->] & (cy' & Dy & ->)).
    apply denotes_rep in Dy. subst cy'. cbn [app assoc Nat.eqb].
    match goal with
    | |- subseq ((if ?b then _ else _) ++ _) _ => destruct b
    end;
      repeat first [exact Ht | apply subseq_app | apply subseq_drop | apply subseq_skip].
  - cbn [app assoc Nat.eqb truthy].
    repeat first [exact Ht | apply subseq_app | apply subseq_drop | apply subseq_skip].
Qed.

(** X7: the steps 2 to 10 of [clean_text] (comments, templates, tables,
    links, HTML tags, emphasis) only delete: what they return is the text
    with some characters left out, none added and none moved. *)
Theorem strip_markup_deletes (order : list str) (text : str) :
  subseq (strip_markup order text) text.
Proof.
  unfold strip_markup, emphasis, strip_html, external_links, wikilinks. cbv zeta.
  assert (Hd : forall tags t,
             subseq (fold_left (fun text tag => sub (discard_re tag) empty text) tags t) t)
    by (apply fold_deletes; intros; apply sub_empty_deletes).
  assert (Hs : forall tags t,
             subseq (fold_left (fun text tag => sub (selfclosing_re tag) empty text)
                               tags t) t)
    by (apply fold_deletes; intros; apply sub_empty_deletes).
  assert (Hi : forall tags t,
             subseq (fold_left (fun text tag =>
                                  let text := sub (open_tag_re tag) empty text in
                                  sub (close_tag_re tag) empty text) tags t) t).
  { apply fold_deletes. intros. cbv zeta.
    eapply subseq_trans; apply sub_empty_deletes. }
  repeat first
    [ apply subseq_refl
    | eapply subseq_trans;
      [|solve [ apply sub_empty_deletes | apply sub_group1_deletes
              | apply dropNested_deletes | apply Hd | apply Hs | apply Hi
              | apply sub_deletes, process_wikilink_deletes ]] ].
Qed.

(** X8: the steps 12 to 15 of [clean_text] (variant markers, citation
    marks, ISBN and DOI, image words, assignments) only delete. *)
Theorem normalise_deletes (text : str) : subseq (normalise text) text.
Proof.
  unfold normalise. cbv zeta.
  repeat first
    [ apply subseq_refl
    | eapply subseq_trans; [|solve [apply sub_empty_deletes]] ].
Qed.

(** ** The lines that are kept *)

Lemma is_some_not_none {A} (o : option A) : is_some o = true <-> o <> None.
Proof. destruct o; simpl; split; congruence. Qed.

(** A pattern matches at the start of a text exactly when the text starts
    with a text that the pattern denotes. *)
Lemma match_iff r text :
  is_some (match_ r text) = true <->
  exists l next caps, text = l ++ next /\ denotes r None l next caps.
Proof.
  rewrite is_some_not_none. unfold match_. split.
  - destruct (match_here r false None text 0) as [mt|] eqn:E; [|congruence].
    intros _. apply match_here_denotes in E. destruct E as (next & R & D). eauto.
  - intros (l & next & caps & -> & D).
    apply (match_here_complete r false None l next 0 caps D). discriminate.
Qed.

Lemma equals_class : one_of "=" = map CC [ch "="].
Proof. vm_compute. reflexivity. Qed.

Lemma equals_match x : cs_match (set (one_of "=")) x = (x =? ch "=")%N.
Proof. rewrite equals_class, one_of_match. simpl. apply orb_false_r. Qed.

Lemma dot_match x : cs_match dot x = negb (x =? 10)%N.
Proof. unfold cs_match, dot, nset. simpl. rewrite orb_false_r. reflexivity. Qed.

Lemma all_equals l : forallb (cs_match (set (one_of "="))) l = true ->
  Forall (fun x => x = ch "=") l.
Proof.
  intros H. apply Forall_forall. intros x Hx. rewrite forallb_forall in H.
  specialize (H x Hx). rewrite equals_match in H. apply N.eqb_eq, H.
Qed.

Lemma no_newline l : forallb (cs_match dot) l = true <-> ~ List.In 10%N l.
Proof.
  rewrite forallb_forall. split.
  - intros H Hin. specialize (H _ Hin). rewrite dot_match in H. discriminate.
  - intros H x Hx. rewrite dot_match. apply negb_true_iff, N.eqb_neq.
    intros ->. exact (H Hx).
Qed.

Lemma heading_iff line : is_some (match_ heading line) = true <-> heading_like line.
Proof.
  rewrite match_iff. unfold heading, heading_like, plus, star_lazy. cbn [seq]. split.
  - intros (l & next & caps & -> & D). simpl in D.
    destruct D as (a & l' & c1 & c' & -> & -> & [(Ha & La & _) ->] & D).
    destruct D as (b & c & c2 & c3 & -> & -> & [(Hb & _ & _) ->] & [(Hc & Lc & _) ->]).
    apply all_equals in Ha, Hc. apply no_newline in Hb.
    destruct a as [|x a]; [simpl in La; lia|].
    destruct c as [|y c]; [simpl in Lc; lia|].
    inversion Ha; subst. inversion Hc; subst.
    exists (a ++ b), (c ++ next). split.
    + simpl. rewrite <- !app_assoc. reflexivity.
    + intros Hin. apply in_app_or in Hin. destruct Hin as [Hin|Hin]; [|exact (Hb Hin)].
      rewrite Forall_forall in H2. specialize (H2 _ Hin). discriminate.
  - intros (b & rest & -> & Hb).
    exists (([ch "="] ++ b ++ [ch "="])), rest, ([] ++ [] ++ []).
    split; [simpl; rewrite <- app_assoc; reflexivity|].
    simpl. exists [ch "="], (b ++ [ch "="]), [], ([] ++ []).
    repeat split; try (simpl; lia).
    exists b, [ch "="], [], []. apply no_newline in Hb.
    repeat split; try assumption; simpl; lia.
Qed.

Lemma markers_class : one_of "*#:;•·" = map CC (u "*#:;•·").
Proof. reflexivity. Qed.

Lemma existsb_in (l : str) x : existsb (N.eqb x) l = true <-> List.In x l.
Proof.
  rewrite existsb_exists. split.
  - intros (y & Hy & E). apply N.eqb_eq in E. subst. exact Hy.
  - intros H. exists x. split; [exact H|apply N.eqb_refl].
Qed.

Lemma all_space l : forallb (cs_match sp) l = forallb Py.isspace l.
Proof. induction l as [|x l IH]; [reflexivity|]. simpl. rewrite sp_match, IH. reflexivity. Qed.

Lemma list_iff line : is_some (match_ list_item line) = true <-> list_like line.
Proof.
  rewrite match_iff. unfold list_item, list_like, star. cbn [seq]. split.
  - intros (l & next & caps & -> & D). simpl in D.
    destruct D as (l0 & l' & c0 & c' & -> & -> & [[-> _] ->] & D).
    destruct D as (ws & l1 & c1 & c2 & -> & -> & [(Hw & _ & _) ->] & [(x & -> & Hx) ->]).
    exists ws, x, next. rewrite all_space in Hw.
    rewrite markers_class, one_of_match in Hx. apply existsb_in in Hx.
    split; [simpl; rewrite <- app_assoc; reflexivity|]. auto.
  - intros (ws & c & rest & -> & Hw & Hc).
    exists (ws ++ [c]), rest, ([] ++ [] ++ []).
    split; [rewrite <- app_assoc; reflexivity|].
    simpl. exists [], (ws ++ [c]), [], ([] ++ []). repeat split.
    exists ws, [c], [], []. rewrite all_space.
    repeat split; try assumption; try lia.
    exists c. split; [reflexivity|].
    rewrite markers_class, one_of_match. apply existsb_in, Hc.
Qed.

Lemma contains_in c line : Py.contains c line = true <-> List.In c line.
Proof.
  unfold Py.contains. rewrite existsb_exists. split.
  - intros (y & Hy & E). apply N.eqb_eq in E. subst. exact Hy.
  - intros H. exists c. split; [exact H|apply N.eqb_refl].
Qed.

Lemma caption_iff line :
  (List.length line <? 200) && (2 <? Py.count (ch "，") line) &&
  negb (existsb (fun c => Py.contains c line) (u "。！？")) = true <->
  caption_like line.
Proof.
  unfold caption_like.
  rewrite !andb_true_iff, !Nat.ltb_lt, negb_true_iff. split.
  - intros [[A B] C]. repeat split; try assumption.
    intros c Hc Hin. apply not_true_iff_false in C. apply C.
    apply existsb_exists. exists c. split; [exact Hc|apply contains_in, Hin].
  - intros (A & B & C). repeat split; try assumption.
    apply not_true_iff_false. intros H. apply existsb_exists in H.
    destruct H as (c & Hc & Hin). apply contains_in in Hin. exact (C c Hc Hin).
Qed.

(** X9: the lines that step 16 keeps are those of at least 15 characters,
    at least three tenths of them CJK ideographs, that look neither like a
    heading, nor like a list item, nor like a caption. *)
Theorem keep_line_spec (line : str) :
  keep_line line = true <->
  15 <= List.length line /\ 3 * List.length line <= 10 * cjk_count line /\
  ~ heading_like line /\ ~ list_like line /\ ~ caption_like line.
Proof.
  rewrite <- heading_iff, <- list_iff, <- caption_iff.
  unfold keep_line. rewrite chinese_chars_count.
  destruct line as [|c line]; [simpl; split; [discriminate|lia]|].
  set (t := c :: line).
  destruct (is_some (match_ heading t));
    [split; [discriminate|intros (_ & _ & H & _); exfalso; apply H; reflexivity]|].
  match goal with
  | |- (if ?b then _ else _) = true <-> _ =>
      destruct b;
        [split; [discriminate|intros (_ & _ & _ & _ & H); exfalso; apply H; reflexivity]|]
  end.
  destruct (List.length t <? 15) eqn:E1;
    [apply Nat.ltb_lt in E1; split; [discriminate|lia]|].
  apply Nat.ltb_ge in E1.
  destruct (10 * cjk_count t <? 3 * List.length t) eqn:E2;
    [apply Nat.ltb_lt in E2; split; [discriminate|lia]|].
  apply Nat.ltb_ge in E2.
  destruct (is_some (match_ list_item t));
    [split; [discriminate|intros (_ & _ & _ & H & _); exfalso; apply H; reflexivity]|].
  split; [|reflexivity]. intros _. repeat split; try assumption; discriminate.
Qed.

Lemma early_truncation_no_keyword x :
  first_keyword end_keywords (early_truncation x) = None.
Proof.
  rewrite early_truncation_spec.
  destruct (first_keyword end_keywords x) as [i|] eqn:E; [|exact E].
  apply (first_keyword_firstn end_keywords eq_refl x i E).
Qed.

(** X10: after step 1 the text holds none of the words at which the step
    cuts, and a second cut changes nothing. *)
Theorem early_truncation_idempotent (x : str) :
  first_keyword end_keywords (early_truncation x) = None /\
  early_truncation (early_truncation x) = early_truncation x.
Proof.
  pose proof (early_truncation_no_keyword x) as H. split; [exact H|].
  rewrite (early_truncation_spec (early_truncation x)), H. reflexivity.
Qed.

(** ** process_dump *)

Lemma rejected_short x : rejected x = false -> too_short x = false.
Proof.
  intros H. apply rejected_spec in H. destruct H as (H & _ & _).
  unfold too_short. destruct x as [|c x]; [simpl in H; lia|]. simpl is_nil.
  apply Nat.ltb_ge. exact H.
Qed.

(** X11: the test [len(cleaned) < 100] of [process_dump] never decides: a
    text that [clean_text] returns is passed over exactly when it is
    empty. *)
Theorem too_short_empty (order : list str) (x : str) :
  too_short (clean_text order x) = is_nil (clean_text order x).
Proof.
  unfold clean_text, quality_check.
  destruct (rejected (final_text order x)) eqn:E; [reflexivity|].
  rewrite (rejected_short _ E).
  apply rejected_spec in E. destruct E as (E & _ & _).
  destruct (final_text order x); [simpl in E; lia|reflexivity].
Qed.

Lemma firstn_snoc {A} (l : list A) (x : A) n :
  firstn n (l ++ [x]) = if List.length l <? n then l ++ [x] else firstn n l.
Proof.
  destruct (List.length l <? n) eqn:E.
  - apply Nat.ltb_lt in E. apply firstn_all2. rewrite length_app. simpl. lia.
  - apply Nat.ltb_ge in E. rewrite firstn_app.
    replace (n - List.length l) with 0 by lia. simpl. apply app_nil_r.
Qed.

Section Run.

Variable order : list str.
Variable sample_size : Z.
Variable max_articles : option Z.

Lemma sum_snoc l x : list_sum (l ++ [x]) = list_sum l + x.
Proof. rewrite list_sum_app. simpl. lia. Qed.

(** What the loop over the revisions of a page does to the files. *)
Lemma revisions_loop_spec pg : forall revisions st st' e,
  revisions_loop order sample_size pg revisions st = (st', e) ->
  files_ok sample_size st ->
  processed_pages st' = processed_pages st /\
  match first_article order pg revisions with
  | None => st' = st /\ e = None
  | Some o =>
      if writable o then
        e = None /\ out_f st' = out_f st ++ [o] /\ files_ok sample_size st' /\
        (stats_ok st -> stats_ok st')
      else
        e = Some UnicodeEncodeError /\ out_f st' = out_f st /\
        files_ok sample_size st'
  end.
Proof.
  induction revisions as [|rv revisions IH]; intros st st' e H Hf.
  - simpl in *. inversion H; subst. auto.
  - cbn [revisions_loop first_article] in *. cbv zeta in *.
    set (cleaned := clean_text order (text_of rv)) in *.
    clearbody cleaned.
    destruct (too_short cleaned); [apply (IH _ _ _ H Hf)|].
    unfold write_article in H. cbv zeta in H.
    set (o := {| obj_text := cleaned;
                 obj_title := page_title pg;
                 obj_id := page_id pg;
                 obj_length := List.length cleaned;
                 obj_chinese_ratio :=
                   if 0 <? List.length cleaned
                   then (chinese_chars cleaned, List.length cleaned)
                   else (0, 1) |}) in *.
    destruct Hf as (Hv & Hs & Hsf).
    destruct (writable o).
    + inversion H; subst; clear H. split; [reflexivity|].
      split; [reflexivity|]. split; [reflexivity|]. split.
      * unfold files_ok.
        cbn [valid_articles sample_count sample_f out_f]. rewrite length_app.
        cbn [List.length].
        rewrite firstn_snoc.
        assert (Hc : (Z.of_nat (sample_count st) <? sample_size)%Z
                     = (List.length (out_f st) <? Z.to_nat sample_size)).
        { rewrite Hs, Hsf, length_firstn.
          destruct (List.length (out_f st) <? Z.to_nat sample_size) eqn:E.
          - apply Nat.ltb_lt in E. apply Z.ltb_lt. lia.
          - apply Nat.ltb_ge in E. apply Z.ltb_ge. lia. }
        rewrite Hc.
        destruct (List.length (out_f st) <? Z.to_nat sample_size) eqn:E.
        -- apply Nat.ltb_lt in E.
           assert (Hall : sample_f st = out_f st)
             by (rewrite Hsf; apply firstn_all2; lia).
           rewrite Hs, Hall, length_app. simpl. repeat split; lia.
        -- split; [lia|]. split; [exact Hs|exact Hsf].
      * intros (A & B & C & D). unfold stats_ok.
        cbn [text_lengths chinese_ratios total_text_length total_chinese_chars out_f].
        rewrite !map_app. subst o.
        cbn [map obj_length obj_chinese_ratio obj_text].
        rewrite !sum_snoc, A, B, C, D, chinese_chars_count. auto.
    + inversion H; subst; clear H. split; [reflexivity|].
      split; [reflexivity|]. split; [reflexivity|].
      unfold files_ok. cbn [valid_articles sample_count sample_f out_f]. auto.
Qed.

Lemma limit_cap v :
  limit_reached max_articles v =
  match cap max_articles with
  | Some n => n <=? v
  | None => false
  end.
Proof.
  unfold limit_reached, cap. destruct max_articles as [n|]; [|reflexivity].
  destruct (n =? 0)%Z; [reflexivity|]. simpl.
  destruct (Z.to_nat n <=? v) eqn:E.
  - apply Nat.leb_le in E. apply Z.leb_le. lia.
  - apply Nat.leb_gt in E. apply Z.leb_gt. lia.
Qed.

Lemma candidates_cons pg dump :
  candidates order (pg :: dump) =
  (if skipped pg then []
   else match first_article order pg (page_revisions pg) with
        | Some o => [o]
        | None => []
        end) ++ candidates order dump.
Proof. reflexivity. Qed.

Lemma upto_nil b k : upto b k [] = [].
Proof. destruct b; simpl; [apply firstn_nil|reflexivity]. Qed.

Lemma upto_cons b k o l :
  (forall n, b = Some n -> k < n) ->
  upto b k (o :: l) = o :: upto b (S k) l.
Proof.
  destruct b as [n|]; simpl; [|reflexivity]. intros H. specialize (H n eq_refl).
  replace (n - k) with (S (n - S k)) by lia. reflexivity.
Qed.

Lemma upto_full b k l :
  (forall n, b = Some n -> n <= k) -> b <> None -> upto b k l = [].
Proof.
  destruct b as [n|]; [|congruence]. intros H _. specialize (H n eq_refl). simpl.
  replace (n - k) with 0 by lia. reflexivity.
Qed.

(** What the loop over the pages does. *)
Ltac splits := repeat match goal with |- _ /\ _ => split end.
Ltac fin :=
  splits; auto; try lia; try (intros _; lia); try assumption;
  try (split; intros; solve [reflexivity|discriminate|congruence]);
  try discriminate; try congruence.

Lemma pages_loop_spec : forall dump st st' e,
  pages_loop order sample_size max_articles dump st = (st', e) ->
  files_ok sample_size st ->
  (forall n, cap max_articles = Some n -> valid_articles st < n) ->
  let b := cap max_articles in
  let k := valid_articles st in
  out_f st' = out_f st ++ upto b k (written (candidates order dump)) /\
  files_ok sample_size st' /\
  (stats_ok st -> e = None -> stats_ok st') /\
  (e = None \/ e = Some UnicodeEncodeError) /\
  (e = None <->
   upto b k (written (candidates order dump)) = upto b k (candidates order dump)) /\
  processed_pages st' <= processed_pages st + List.length dump /\
  processed_pages st <= processed_pages st' /\
  (dump <> [] -> processed_pages st < processed_pages st') /\
  (b = None -> e = None -> processed_pages st' = processed_pages st + List.length dump).
Proof.
  induction dump as [|pg dump IH]; intros st st' e H Hf Hk b k.
  - simpl in H. inversion H; subst. simpl. rewrite !upto_nil, app_nil_r.
    fin.
  - cbn [pages_loop] in H. cbv zeta in H. rewrite candidates_cons.
    assert (Hf0 : files_ok sample_size (count_page st)) by exact Hf.
    assert (Hk0 : forall n, cap max_articles = Some n ->
                            valid_articles (count_page st) < n) by exact Hk.
    assert (Hp0 : processed_pages (count_page st) = S (processed_pages st))
      by reflexivity.
    assert (Ho0 : out_f (count_page st) = out_f st) by reflexivity.
    assert (Hv0 : valid_articles (count_page st) = k) by reflexivity.
    assert (Hs0 : stats_ok st -> stats_ok (count_page st)) by (intros X; exact X).
    revert H Hf0 Hk0 Hp0 Ho0 Hv0 Hs0. generalize (count_page st) as st0.
    intros st0 H Hf0 Hk0 Hp0 Ho0 Hv0 Hs0.
    destruct (skipped pg).
    + simpl app. destruct (IH _ _ _ H Hf0 Hk0) as (A & B & C & D & E & F & M & G & I).
      fold b in A, E, I. rewrite Hv0, Ho0 in *. simpl List.length.
      fin. intros Hb He. rewrite (I Hb He). lia.
    + destruct (revisions_loop order sample_size pg (page_revisions pg) st0)
        as [st1 e1] eqn:Er.
      destruct (revisions_loop_spec pg _ _ _ _ Er Hf0) as [Hp1 Hr].
      destruct (first_article order pg (page_revisions pg)) as [o|].
      * cbn [app written]. destruct (writable o) eqn:Hw.
        -- destruct Hr as (-> & Ho1 & Hf1 & Hs1).
           assert (Hv1 : valid_articles st1 = S k).
           { destruct Hf1 as (V & _). rewrite V, Ho1, length_app.
             destruct Hf0 as (V0 & _). rewrite <- V0, Hv0. simpl. lia. }
           rewrite (upto_cons b k o) by (intros n Hn; apply Hk, Hn).
           rewrite (upto_cons b k o) by (intros n Hn; apply Hk, Hn).
           rewrite limit_cap in H. fold b in H.
           destruct b as [n|] eqn:Eb.
           ++ rewrite Hv1 in H. destruct (n <=? S k) eqn:El.
              ** inversion H; subst. apply Nat.leb_le in El.
                 rewrite !upto_full by (try discriminate; intros ? [= <-]; exact El).
                 rewrite Ho1, Ho0. simpl List.length. fin.
              ** apply Nat.leb_gt in El.
                 assert (Hk1 : forall n', cap max_articles = Some n' ->
                                          valid_articles st1 < n').
                 { intros n' Hn'. fold b in Hn'. rewrite Eb in Hn'.
                   inversion Hn'; subst. lia. }
                 destruct (IH _ _ _ H Hf1 Hk1) as (A & B & C & D & E & F & M & G & I).
                 fold b in A, E, I. rewrite Eb, Hv1, Ho1, Ho0 in *. simpl List.length.
                 rewrite A, <- app_assoc. simpl app.
                 assert (Hiff : e = None <->
                           o :: upto (Some n) (S k) (written (candidates order dump))
                           = o :: upto (Some n) (S k) (candidates order dump)).
                 { split; intros He; [f_equal; apply E, He|].
                   apply E. injection He as He'. exact He'. }
                 fin.
           ++ destruct (IH _ _ _ H Hf1) as (A & B & C & D & E & F & M & G & I).
              { intros n Hn. fold b in Hn. rewrite Eb in Hn. discriminate. }
              fold b in A, E, I. rewrite Eb, Hv1, Ho1, Ho0 in *. simpl List.length.
              rewrite A, <- app_assoc. simpl app.
              assert (Hiff : e = None <->
                        o :: upto None (S k) (written (candidates order dump))
                        = o :: upto None (S k) (candidates order dump)).
              { split; intros He; [f_equal; apply E, He|].
                apply E. injection He as He'. exact He'. }
              fin. intros _ He. rewrite (I eq_refl He). lia.
        -- destruct Hr as (-> & Ho1 & Hf1). inversion H; subst.
           rewrite upto_nil, app_nil_r, Ho1, Ho0.
           rewrite (upto_cons b k o) by (intros n Hn; apply Hk, Hn).
           simpl List.length. fin.
      * destruct Hr as [-> ->]. simpl app.
        rewrite limit_cap in H. fold b in H.
        assert (Hl : match b with Some n => n <=? valid_articles st0 | None => false end
                     = false).
        { destruct b as [n|] eqn:Eb; [|reflexivity]. apply Nat.leb_gt.
          apply Hk0. exact Eb. }
        rewrite Hl in H.
        destruct (IH _ _ _ H Hf0 Hk0) as (A & B & C & D & E & F & M & G & I).
        fold b in A, E, I. rewrite Hv0, Ho0 in *. simpl List.length.
        fin. intros Hb He. rewrite (I Hb He). lia.
Qed.

(** Whatever is in the output file at the end was there at the start or
    is a writable article of a page of the dump. *)
Lemma pages_loop_incl : forall dump st st' e,
  pages_loop order sample_size max_articles dump st = (st', e) ->
  files_ok sample_size st ->
  files_ok sample_size st' /\
  forall o, List.In o (out_f st') ->
    List.In o (out_f st) \/ (List.In o (candidates order dump) /\ writable o = true).
Proof.
  induction dump as [|pg dump IH]; intros st st' e H Hf.
  - simpl in H. inversion H; subst. auto.
  - cbn [pages_loop] in H. cbv zeta in H. rewrite candidates_cons.
    assert (Hf0 : files_ok sample_size (count_page st)) by exact Hf.
    assert (Ho0 : out_f (count_page st) = out_f st) by reflexivity.
    revert H Hf0 Ho0. generalize (count_page st) as st0. intros st0 H Hf0 Ho0.
    destruct (skipped pg).
    + destruct (IH _ _ _ H Hf0) as [B A]. split; [exact B|].
      intros o Ho. rewrite <- Ho0. exact (A o Ho).
    + destruct (revisions_loop order sample_size pg (page_revisions pg) st0)
        as [st1 e1] eqn:Er.
      destruct (revisions_loop_spec pg _ _ _ _ Er Hf0) as [_ Hr].
      destruct (first_article order pg (page_revisions pg)) as [a|].
      * destruct (writable a) eqn:Hw.
        -- destruct Hr as (-> & Ho1 & Hf1 & _).
           assert (Hstep : forall o, List.In o (out_f st1) ->
                     List.In o (out_f st) \/
                     (List.In o ([a] ++ candidates order dump) /\ writable o = true)).
           { intros o Ho. rewrite Ho1, Ho0 in Ho. apply in_app_or in Ho.
             destruct Ho as [Ho|[<-|[]]]; [left; exact Ho|].
             right. split; [left; reflexivity|exact Hw]. }
           destruct (limit_reached max_articles (valid_articles st1)).
           ++ inversion H; subst. split; [exact Hf1|exact Hstep].
           ++ destruct (IH _ _ _ H Hf1) as [B A]. split; [exact B|].
              intros o Ho. destruct (A o Ho) as [Hin|[Hin Hwo]]; [exact (Hstep o Hin)|].
              right. split; [right; exact Hin|exact Hwo].
        -- destruct Hr as (-> & Ho1 & Hf1). inversion H; subst.
           split; [exact Hf1|]. intros o Ho. left. rewrite <- Ho0, <- Ho1. exact Ho.
      * destruct Hr as [-> ->].
        destruct (limit_reached max_articles (valid_articles st0)).
        -- inversion H; subst. split; [exact Hf0|].
           intros o Ho. left. rewrite <- Ho0. exact Ho.
        -- destruct (IH _ _ _ H Hf0) as [B A]. split; [exact B|].
           intros o Ho. rewrite <- Ho0. exact (A o Ho).
Qed.

(** With a bound that is reached from the start the loop ends at the first
    page that it does not skip. *)
Lemma pages_loop_stop :
  (forall v, limit_reached max_articles v = true) ->
  forall dump st st' e,
  pages_loop order sample_size max_articles dump st = (st', e) ->
  files_ok sample_size st ->
  out_f st' = out_f st ++
    written (candidates order (firstn 1 (filter (fun pg => negb (skipped pg)) dump))).
Proof.
  intros Hl. induction dump as [|pg dump IH]; intros st st' e H Hf.
  - simpl in H. inversion H; subst. simpl. symmetry. apply app_nil_r.
  - cbn [pages_loop filter] in H |- *. cbv zeta in H.
    assert (Hf0 : files_ok sample_size (count_page st)) by exact Hf.
    assert (Ho0 : out_f (count_page st) = out_f st) by reflexivity.
    revert H Hf0 Ho0. generalize (count_page st) as st0. intros st0 H Hf0 Ho0.
    destruct (skipped pg) eqn:Es; cbn [negb].
    + rewrite <- Ho0. apply (IH _ _ _ H Hf0).
    + cbn [firstn]. rewrite candidates_cons, Es. cbn [candidates flat_map].
      rewrite app_nil_r.
      destruct (revisions_loop order sample_size pg (page_revisions pg) st0)
        as [st1 e1] eqn:Er.
      destruct (revisions_loop_spec pg _ _ _ _ Er Hf0) as [_ Hr].
      destruct (first_article order pg (page_revisions pg)) as [a|].
      * cbn [written]. destruct (writable a).
        -- destruct Hr as (-> & Ho1 & _). rewrite Hl in H. inversion H; subst.
           rewrite Ho1, Ho0. reflexivity.
        -- destruct Hr as (-> & Ho1 & _). inversion H; subst.
           rewrite Ho1, Ho0. symmetry. apply app_nil_r.
      * destruct Hr as [-> ->]. rewrite Hl in H. inversion H; subst.
        rewrite Ho0. symmetry. apply app_nil_r.
Qed.

Lemma accepted_good x :
  too_short (clean_text order x) = false ->
  100 <= List.length (clean_text order x) /\
  List.length (clean_text order x) <= 2 * cjk_count (clean_text order x) /\
  50 <= cjk_count (clean_text order x).
Proof.
  unfold clean_text, quality_check.
  destruct (rejected (final_text order x)) eqn:E.
  - intros H. exfalso. revert H. unfold too_short. cbn [is_nil orb]. discriminate.
  - intros _. apply rejected_spec, E.
Qed.

(** What an article of a page is made of. *)
Lemma first_article_good pg : forall revisions o,
  first_article order pg revisions = Some o ->
  exists rv, List.In rv revisions /\
    obj_text o = clean_text order (text_of rv) /\
    obj_title o = page_title pg /\ obj_id o = page_id pg /\
    obj_length o = List.length (obj_text o) /\
    obj_chinese_ratio o = (cjk_count (obj_text o), List.length (obj_text o)) /\
    100 <= List.length (obj_text o) /\
    List.length (obj_text o) <= 2 * cjk_count (obj_text o) /\
    50 <= cjk_count (obj_text o).
Proof.
  induction revisions as [|rv revisions IH]; intros o H; [discriminate|].
  cbn [first_article] in H. cbv zeta in H.
  destruct (too_short (clean_text order (text_of rv))) eqn:Et.
  - destruct (IH o H) as (rv' & Hin & Hrest). exists rv'. split; [right; exact Hin|].
    exact Hrest.
  - exists rv. split; [left; reflexivity|].
    pose proof (accepted_good _ Et) as (Q1 & Q2 & Q3).
    remember (clean_text order (text_of rv)) as cleaned eqn:Hc. clear Hc Et IH.
    injection H as <-.
    cbn [obj_text obj_title obj_id obj_length obj_chinese_ratio].
    replace (0 <? List.length cleaned) with true
      by (symmetry; apply Nat.ltb_lt; lia).
    rewrite chinese_chars_count. repeat split; assumption.
Qed.

Lemma candidates_good : forall dump o,
  List.In o (candidates order dump) ->
  exists pg rv, List.In pg dump /\ page_namespace pg = 0%Z /\
    truthy (page_redirect pg) = false /\ List.In rv (page_revisions pg) /\
    obj_text o = clean_text order (text_of rv) /\
    obj_title o = page_title pg /\ obj_id o = page_id pg /\
    obj_length o = List.length (obj_text o) /\
    obj_chinese_ratio o = (cjk_count (obj_text o), List.length (obj_text o)) /\
    100 <= List.length (obj_text o) /\
    List.length (obj_text o) <= 2 * cjk_count (obj_text o) /\
    50 <= cjk_count (obj_text o).
Proof.
  intros dump o H. unfold candidates in H. apply in_flat_map in H.
  destruct H as (pg & Hpg & H). exists pg.
  destruct (skipped pg) eqn:Es; [destruct H|].
  destruct (first_article order pg (page_revisions pg)) as [a|] eqn:Ea; [|destruct H].
  destruct H as [<-|[]].
  destruct (first_article_good pg _ _ Ea) as (rv & Hrv & Hrest).
  exists rv. unfold skipped in Es. apply orb_false_iff in Es. destruct Es as [E1 E2].
  apply negb_false_iff, Z.eqb_eq in E1. auto.
Qed.

Lemma initial_ok : files_ok sample_size initial /\ stats_ok initial.
Proof.
  unfold files_ok, stats_ok. simpl. rewrite firstn_nil. repeat split.
Qed.

Lemma upto_limited l :
  (forall n, max_articles = Some n -> (0 <= n)%Z) ->
  upto (cap max_articles) 0 l = limited max_articles l /\
  forall n, cap max_articles = Some n -> 0 < n.
Proof.
  intros H. unfold upto, cap, limited. destruct max_articles as [n|]; [|split; [reflexivity|discriminate]].
  specialize (H n eq_refl). destruct (n =? 0)%Z eqn:E; [split; [reflexivity|discriminate]|].
  rewrite Nat.sub_0_r. split; [reflexivity|]. intros k [= <-].
  apply Z.eqb_neq in E. lia.
Qed.

End Run.

(** X12: what [process_dump] writes.  The output file holds, in the order
    of the dump, the article of every page of the main namespace that is
    no redirect and has a revision whose cleaned text is not empty (the
    article of the first such revision), up to the first article that the
    file cannot encode and up to [max_articles] of them; the sample file
    holds the first [sample_size] lines of the output file. *)
Theorem process_dump_files (order : list str) (sample_size : Z)
  (max_articles : option Z) (dump : list page) (start_time end_time : Z) :
  (forall n, max_articles = Some n -> (0 <= n)%Z) ->
  let st := fst (process_dump order sample_size max_articles dump start_time end_time) in
  out_f st = limited max_articles (written (candidates order dump)) /\
  sample_f st = firstn (Z.to_nat sample_size) (out_f st).
Proof.
  intros Hn. unfold process_dump.
  destruct (pages_loop order sample_size max_articles dump initial) as [st e] eqn:E.
  destruct (upto_limited max_articles (written (candidates order dump)) Hn) as [Hu Hc].
  destruct (pages_loop_spec order sample_size max_articles dump initial st e E
              (proj1 (initial_ok sample_size)) Hc) as (A & (_ & _ & B) & _).
  cbv zeta in A. change (valid_articles initial) with 0 in A. rewrite Hu in A.
  simpl in A. destruct e; simpl; auto.
Qed.

Lemma process_dump_files_witness :
  let st := fst (process_dump discardElements 1000 (Some 10%Z) sample_dump 0 1) in
  out_f st = limited (Some 10%Z) (written (candidates discardElements sample_dump)) /\
  sample_f st = firstn (Z.to_nat 1000) (out_f st).
Proof. apply process_dump_files. intros n H. inversion H. lia. Defined.

(** X13: every line of the output file is the article of a page of the
    dump of namespace 0 that is no redirect: its text is what
    [clean_text] makes of a revision of the page, has at least 100
    characters, at least half of them and at least 50 of them CJK
    ideographs, and no surrogate; title and id are those of the page, and
    the length and the ratio written with it are those of the text. *)
Theorem process_dump_articles (order : list str) (sample_size : Z)
  (max_articles : option Z) (dump : list page) (start_time end_time : Z) (o : obj) :
  List.In o (out_f (fst (process_dump order sample_size max_articles dump
                           start_time end_time))) ->
  exists pg rv, List.In pg dump /\ page_namespace pg = 0%Z /\
    truthy (page_redirect pg) = false /\ List.In rv (page_revisions pg) /\
    obj_text o = clean_text order (text_of rv) /\
    obj_title o = page_title pg /\ obj_id o = page_id pg /\
    obj_length o = List.length (obj_text o) /\
    obj_chinese_ratio o = (cjk_count (obj_text o), List.length (obj_text o)) /\
    100 <= List.length (obj_text o) /\
    List.length (obj_text o) <= 2 * cjk_count (obj_text o) /\
    50 <= cjk_count (obj_text o) /\
    encodable (obj_text o) = true.
Proof.
  unfold process_dump.
  destruct (pages_loop order sample_size max_articles dump initial) as [st e] eqn:E.
  destruct (pages_loop_incl order sample_size max_articles dump initial st e E
              (proj1 (initial_ok sample_size))) as [_ A].
  intros Ho. assert (Hin : List.In o (out_f st)) by (destruct e; exact Ho).
  destruct (A o Hin) as [[]|[Hc Hw]].
  destruct (candidates_good order dump o Hc) as (pg & rv & Hgood).
  exists pg, rv. unfold writable in Hw. apply andb_true_iff in Hw.
  destruct Hw as [Hw _]. repeat split; try apply Hgood. exact Hw.
Qed.

Lemma process_dump_articles_witness :
  exists pg rv, List.In pg sample_dump /\ page_namespace pg = 0%Z /\
    truthy (page_redirect pg) = false /\ List.In rv (page_revisions pg) /\
    obj_text sample_article = clean_text discardElements (text_of rv) /\
    obj_title sample_article = page_title pg /\ obj_id sample_article = page_id pg /\
    obj_length sample_article = List.length (obj_text sample_article) /\
    obj_chinese_ratio sample_article
      = (cjk_count (obj_text sample_article), List.length (obj_text sample_article)) /\
    100 <= List.length (obj_text sample_article) /\
    List.length (obj_text sample_article) <= 2 * cjk_count (obj_text sample_article) /\
    50 <= cjk_count (obj_text sample_article) /\
    encodable (obj_text sample_article) = true.
Proof.
  apply (process_dump_articles discardElements 1000 None sample_dump 0 1 sample_article).
  vm_compute. left. reflexivity.
Defined.




(** An article with a surrogate: nothing is written and the run ends with
    [UnicodeEncodeError]. *)
Example process_dump_surrogate :
  let r := process_dump discardElements 1000 None surrogate_dump 0 1 in
  out_f (fst r) = [] /\ snd r = Some UnicodeEncodeError.
Proof. vm_compute. split; reflexivity. Qed.



(** X16: a negative [max_articles] is a bound that is reached at once:
    [process_dump] stops after the first page of the main namespace that
    is no redirect, and writes its article at most. *)
Theorem process_dump_negative_limit (order : list str) (sample_size n : Z)
  (dump : list page) (start_time end_time : Z) :
  (n < 0)%Z ->
  out_f (fst (process_dump order sample_size (Some n) dump start_time end_time)) =
  written (candidates order (firstn 1 (filter (fun pg => negb (skipped pg)) dump))).
Proof.
  intros Hn. unfold process_dump.
  destruct (pages_loop order sample_size (Some n) dump initial) as [st e0] eqn:E.
  assert (Hl : forall v, limit_reached (Some n) v = true).
  { intros v. unfold limit_reached. apply andb_true_iff. split.
    - apply negb_true_iff, Z.eqb_neq. lia.
    - apply Z.leb_le. lia. }
  pose proof (pages_loop_stop order sample_size (Some n) Hl dump initial st e0 E
                (proj1 (initial_ok sample_size))) as H.
  simpl in H. destruct e0; exact H.
Qed.

Lemma process_dump_negative_limit_witness :
  out_f (fst (process_dump discardElements 1000 (Some (-1)%Z) sample_dump 0 1)) =
  written (candidates discardElements
             (firstn 1 (filter (fun pg => negb (skipped pg)) sample_dump))).
Proof. apply process_dump_negative_limit. lia. Defined.
